(** * pathed: an in-memory mirror of a filesystem subtree

    Shallow embedding of [pathed/__init__.py]: the abstract class [Pathed]
    and its two concrete classes [Directory] and [File], together with the
    part of the operating system they talk to.

    - The filesystem is a finite map from absolute paths to inodes; the
      [os] and [os.path] calls of the source are lookups in that map.
    - Exceptions are values of type [exception]; a computation that may
      raise returns [exception + A].
    - Code that mutates state and may raise lives in a small
      state-and-exception monad [ST S]: object construction threads the
      module-level [file_count] and the standard output ([S := world]);
      [refresh] and the [hash] property mutate the object they are called
      on ([S := File], [S := Directory]) and hand it back next to their
      result, also when they raise. *)

From Stdlib Require Import ZArith Lia.
From Stdlib.Strings Require Import Byte Ascii String.
From stdpp Require Import base option list strings gmap.

Set Warnings "-register-all".

Local Open Scope string_scope.
Local Open Scope list_scope.
Local Open Scope Z_scope.

(** ** Exceptions and results *)

(** The exceptions of the source and of the [os] calls it makes, by
    their Python names; [EnvironmentError] carries its message. *)
Inductive exception : Type :=
| NotADirectoryError (p : string)
| FileExistsError (p : string)
| EnvironmentError (msg : string)
| FileNotFoundError (p : string)
| IsADirectoryError (p : string)
| OSError (p : string)
| AttributeError (attr : string)
| RecursionError.

Definition result (A : Type) : Type := (exception + A)%type.

(** ** The filesystem *)

Inductive inode : Type :=
| IDir (st_ctime st_mtime st_size : Z) (entries : list string)
| IFile (st_ctime st_mtime : Z) (contents : list byte)
| IOther (st_ctime st_mtime st_size : Z).

(** Keys are absolute, normalised paths.  A name that a directory lists
    but that has no inode of its own stands for a dangling symbolic
    link. *)
Abbreviation filesystem := (gmap string inode).

Module os.

Definition sep : string := "/".

Definition listdir (fs : filesystem) (p : string) : result (list string) :=
  match fs !! p with
  | Some (IDir _ _ _ entries) => inr entries
  | Some _ => inl (NotADirectoryError p)
  | None => inl (FileNotFoundError p)
  end.

(** [open(p, 'rb').read()] *)
Definition read (fs : filesystem) (p : string) : result (list byte) :=
  match fs !! p with
  | Some (IFile _ _ contents) => inr contents
  | Some (IDir _ _ _ _) => inl (IsADirectoryError p)
  | Some (IOther _ _ _) => inl (OSError p)
  | None => inl (FileNotFoundError p)
  end.

Module path.

Definition isdir (fs : filesystem) (p : string) : bool :=
  match fs !! p with Some (IDir _ _ _ _) => true | _ => false end.

Definition isfile (fs : filesystem) (p : string) : bool :=
  match fs !! p with Some (IFile _ _ _) => true | _ => false end.

Definition getctime (fs : filesystem) (p : string) : result Z :=
  match fs !! p with
  | Some (IDir c _ _ _) | Some (IFile c _ _) | Some (IOther c _ _) => inr c
  | None => inl (FileNotFoundError p)
  end.

(** Of the ways in which [stat] fails, the missing path is the one
    modelled, here and in [getctime] and [getsize]. *)
Definition getmtime (fs : filesystem) (p : string) : result Z :=
  match fs !! p with
  | Some (IDir _ m _ _) | Some (IFile _ m _) | Some (IOther _ m _) => inr m
  | None => inl (FileNotFoundError p)
  end.

Definition getsize (fs : filesystem) (p : string) : result Z :=
  match fs !! p with
  | Some (IDir _ _ sz _) | Some (IOther _ _ sz) => inr sz
  | Some (IFile _ _ contents) => inr (Z.of_nat (length contents))
  | None => inl (FileNotFoundError p)
  end.

Definition startswith_sep (s : string) : bool :=
  match s with
  | String c _ => bool_decide (c = "/"%char)
  | EmptyString => false
  end.

Fixpoint endswith_sep (s : string) : bool :=
  match s with
  | EmptyString => false
  | String c EmptyString => bool_decide (c = "/"%char)
  | String _ rest => endswith_sep rest
  end.

(** [posixpath.join] with two arguments. *)
Definition join (a b : string) : string :=
  if startswith_sep b then b
  else if bool_decide (a = "") || endswith_sep a then a +:+ b
  else a +:+ sep +:+ b.

(** The paths handed to the constructors are absolute and normalised
    (the keys of the filesystem), on which [os.path.abspath] is the
    identity. *)
Definition abspath (p : string) : string := p.

End path.

End os.

(** [s.split(os.sep)[-1]]: what follows the last separator of [s]. *)
Fixpoint last_component_acc (acc s : string) : string :=
  match s with
  | EmptyString => acc
  | String c rest =>
      if bool_decide (c = "/"%char) then last_component_acc "" rest
      else last_component_acc (acc +:+ String c "") rest
  end.

Definition last_component (s : string) : string := last_component_acc "" s.

(** ** State and exceptions *)

Definition ST (S A : Type) : Type := S → result A * S.

Definition ret {S A} (a : A) : ST S A := λ s, (inr a, s).
Definition raise {S A} (e : exception) : ST S A := λ s, (inl e, s).
Definition bind {S A B} (m : ST S A) (k : A → ST S B) : ST S B :=
  λ s, match m s with
       | (inl e, s') => (inl e, s')
       | (inr a, s') => k a s'
       end.
Definition lift {S A} (r : result A) : ST S A := λ s, (r, s).
Definition get {S} : ST S S := λ s, (inr s, s).
Definition modify {S} (f : S → S) : ST S unit := λ s, (inr tt, f s).

(** Runs a method of a component on that component of the state. *)
Definition zoom {S T A} (proj : S → T) (upd : T → S → S) (m : ST T A) : ST S A :=
  λ s, match m (proj s) with (r, t') => (r, upd t' s) end.

Notation "'do' x <- m ; k" := (bind m (λ x, k))
  (at level 10, x name, m at level 100, k at level 200, only parsing).

(** Binding in [result] alone, for the code that has no state. *)
Definition rbind {A B} (r : result A) (k : A → result B) : result B :=
  match r with inl e => inl e | inr a => k a end.

Notation "'try' x <- m ; k" := (rbind m (λ x, k))
  (at level 10, x name, m at level 100, k at level 200, only parsing).

(** ** The module-level state: [file_count] and what [print] wrote *)

Record world : Type := World { file_count : Z; stdout : list Z }.

(** [file_count += 1; print(file_count)] *)
Definition count_file : ST world unit :=
  λ w, let n := file_count w + 1 in
       (inr tt, {| file_count := n; stdout := stdout w ++ [n] |}).

(** ** Pathed *)

Inductive class : Type := ClsDirectory | ClsFile.

Definition issubclass (c base : class) : bool :=
  match c, base with
  | ClsDirectory, ClsDirectory | ClsFile, ClsFile => true
  | _, _ => false
  end.

(** The parent object is kept as the path that identifies it. *)
Record Pathed : Type := MkPathed {
  parent : option string;
  path : string;
  name : string;
  last_refreshed : Z;
  is_dir : bool;
  is_file : bool;
  created_at : Z;
  last_modified : Z;
  should_hash_files : bool
}.

Definition Pathed_init (fs : filesystem) (cls : class) (p : string)
    (path_method : filesystem → string → bool)
    (path_error : string → exception)
    (parent : option string) (hash_files : bool) : result Pathed :=
  if negb (path_method fs p) then inl (path_error p)
  else
    let abs := os.path.abspath p in
    try c <- os.path.getctime fs abs;
    try m <- os.path.getmtime fs abs;
    inr {| parent := parent;
           path := abs;
           name := last_component abs;
           last_refreshed := -1;
           is_dir := issubclass cls ClsDirectory;
           is_file := issubclass cls ClsFile;
           created_at := c;
           last_modified := m;
           should_hash_files := hash_files |}.

Definition set_last_modified (m : Z) (self : Pathed) : Pathed :=
  {| parent := parent self; path := path self; name := name self;
     last_refreshed := last_refreshed self;
     is_dir := is_dir self; is_file := is_file self;
     created_at := created_at self;
     last_modified := m;
     should_hash_files := should_hash_files self |}.

(** [Pathed.refresh] *)
Definition Pathed_refresh (fs : filesystem) : ST Pathed bool :=
  do self <- get;
  do file_last_modified <- lift (os.path.getmtime fs (path self));
  let refreshed := negb (bool_decide (last_modified self = file_last_modified)) in
  if refreshed then
    do _ <- modify (set_last_modified file_last_modified);
    ret refreshed
  else ret refreshed.

Definition has_parent (self : Pathed) : bool :=
  match parent self with Some _ => true | None => false end.

(** ** File *)

(** What [File.__hash_file] returns: the [str] of a hexadecimal digest, or
    the [bytes] literal [b''] for a file without contents. *)
Inductive hash_value : Type :=
| HexDigest (hex : string)
| EmptyBytes.

#[global] Instance hash_value_eq_dec : EqDecision hash_value.
Proof. solve_decision. Defined.

(** [__filesize] and [__hash] are only declared in [File.__init__]; each
    exists as an attribute once it has been assigned. *)
Record File : Type := MkFile {
  file_base : Pathed;
  filesize_attr : option Z;
  hash_attr : option hash_value
}.

Definition set_file_base (b : Pathed) (self : File) : File :=
  {| file_base := b; filesize_attr := filesize_attr self; hash_attr := hash_attr self |}.
Definition set_filesize (sz : Z) (self : File) : File :=
  {| file_base := file_base self; filesize_attr := Some sz; hash_attr := hash_attr self |}.
Definition set_hash (h : hash_value) (self : File) : File :=
  {| file_base := file_base self; filesize_attr := filesize_attr self; hash_attr := Some h |}.

(** Reading an attribute that was never assigned raises. *)
Definition getattr {S A} (attr : string) (proj : S → option A) : ST S A :=
  λ self, match proj self with
          | Some a => (inr a, self)
          | None => (inl (AttributeError attr), self)
          end.

(** [blake3(contents).hexdigest()], from the [blake3] package. *)
Class Blake3 : Type := blake3_hexdigest : list byte → string.

(** ** Directory *)

Inductive Directory : Type := MkDirectory {
  dir_base : Pathed;
  sub_dirs : list Directory;
  files : list File;
  empty : bool;
  recursive : bool;
  recursive_depth : Z
}.

(** [x.refresh()] is dispatched on the class of [x]. *)
Inductive node : Type :=
| DirectoryNode (d : Directory)
| FileNode (f : File).

Section pathed.

Context {blake3 : Blake3}.

Definition File_hash_file (fs : filesystem) (self : File) : result hash_value :=
  try contents <- os.read fs (path (file_base self));
  inr (if bool_decide (0 < length contents)%nat
       then HexDigest (blake3_hexdigest contents)
       else EmptyBytes).

Definition File_calculate_hash_and_size (fs : filesystem) : ST File unit :=
  do self <- get;
  do _ <- (if should_hash_files (file_base self) then
             do h <- lift (File_hash_file fs self);
             modify (set_hash h)
           else ret tt);
  do sz <- lift (os.path.getsize fs (path (file_base self)));
  modify (set_filesize sz).

Definition File_init (fs : filesystem) (p : string) (parent_dir : option string)
    : result File :=
  (* hash_files is left at its default *)
  try base <- Pathed_init fs ClsFile p os.path.isfile FileExistsError parent_dir false;
  let self := {| file_base := base; filesize_attr := None; hash_attr := None |} in
  match File_calculate_hash_and_size fs self with
  | (inl e, _) => inl e
  | (inr _, self') => inr self'
  end.

(** The [filesize] property. *)
Definition File_filesize : ST File Z := getattr "_File__filesize" filesize_attr.

(** The [hash] property. *)
Definition File_hash (fs : filesystem) : ST File hash_value :=
  do _ <- File_calculate_hash_and_size fs;
  getattr "_File__hash" hash_attr.

Definition File_refresh (fs : filesystem) : ST File bool :=
  do refreshed <- zoom file_base set_file_base (Pathed_refresh fs);
  do self <- get;
  if should_hash_files (file_base self) then
    do old_hash <- getattr "_File__hash" hash_attr;
    do _ <- File_calculate_hash_and_size fs;
    do new_hash <- getattr "_File__hash" hash_attr;
    if negb (bool_decide (old_hash = new_hash)) then ret true else ret refreshed
  else ret refreshed.

(** The loop of [Directory.__populate] over the listing.  [self] is the
    object under construction, [new_Directory] the constructor the loop
    calls for a sub-directory, [subs] and [fls] the lists [__sub_dirs]
    and [__files] built so far. *)
Fixpoint populate_loop (fs : filesystem)
    (new_Directory : string → option string → bool → bool → Z → ST world Directory)
    (self : Pathed) (self_recursive : bool) (self_recursive_depth : Z)
    (items : list string) (subs : list Directory) (fls : list File)
    : ST world (list Directory * list File) :=
  match items with
  | [] => ret (subs, fls)
  | item :: rest =>
      let item_path := os.path.join (path self) item in
      if os.path.isdir fs item_path then
        if bool_decide (self_recursive_depth >= 0) then
          do d <- new_Directory item_path (Some (path self))
                    (should_hash_files self) self_recursive
                    (self_recursive_depth - 1);
          populate_loop fs new_Directory self self_recursive self_recursive_depth
                        rest (subs ++ [d]) fls
        else
          populate_loop fs new_Directory self self_recursive self_recursive_depth
                        rest subs fls
      else if os.path.isfile fs item_path then
        do f <- lift (File_init fs item_path (Some (path self)));
        do _ <- count_file;
        populate_loop fs new_Directory self self_recursive self_recursive_depth
                      rest subs (fls ++ [f])
      else
        raise (EnvironmentError ("Unknown Directory Element: " +:+ item_path))
  end.

(** [Directory.__init__].  [fuel] bounds the nesting of constructor calls
    and makes the definition structural; running out of it raises, which
    [Directory_init] below never does.  The argument [hash_files] is
    accepted and not passed on to [Pathed.__init__], which keeps its
    default. *)
Fixpoint Directory_init_fuel (fuel : nat) (fs : filesystem) (p : string)
    (parent_dir : option string) (hash_files recursive : bool)
    (recursive_depth : Z) : ST world Directory :=
  match fuel with
  | O => raise RecursionError
  | S fuel' =>
      do base <- lift (Pathed_init fs ClsDirectory p os.path.isdir
                         NotADirectoryError parent_dir false);
      do items <- lift (os.listdir fs (path base));
      let empty := bool_decide (length items = 0%nat) in
      do children <- populate_loop fs (Directory_init_fuel fuel' fs) base
                       recursive recursive_depth items [] [];
      ret (MkDirectory base children.1 children.2 empty
                       recursive recursive_depth)
  end.

(** A call with budget [recursive_depth] nests at most
    [recursive_depth + 1] further calls, and none when the budget is
    negative, so this much fuel never runs out
    ([Directory_init_fuel_enough], [Directory_init_no_RecursionError]). *)
Definition depth_fuel (recursive_depth : Z) : nat :=
  S (Z.to_nat (recursive_depth + 1)).

Definition Directory_init (fs : filesystem) (p : string)
    (parent_dir : option string) (hash_files recursive : bool)
    (recursive_depth : Z) : ST world Directory :=
  Directory_init_fuel (depth_fuel recursive_depth) fs p parent_dir
                      hash_files recursive recursive_depth.

(** [Directory.__populate] of the object [self], given the listing. *)
Definition Directory_populate (fs : filesystem) (self : Pathed)
    (self_recursive : bool) (self_recursive_depth : Z) (items : list string)
    : ST world (list Directory * list File) :=
  populate_loop fs (Directory_init fs) self self_recursive self_recursive_depth
                items [] [].

(** The two loops of [Directory.refresh]:
    [for x in l: refreshed = refreshed or x.refresh()].
    When [refreshed] is already true, [or] does not evaluate its right
    operand. *)
Fixpoint refresh_each {A} (refresh : ST A bool) (refreshed : bool)
    (l : list A) : result bool * list A :=
  match l with
  | [] => (inr refreshed, [])
  | x :: rest =>
      if refreshed then
        match refresh_each refresh refreshed rest with
        | (r, rest') => (r, x :: rest')
        end
      else
        match refresh x with
        | (inl e, x') => (inl e, x' :: rest)
        | (inr b, x') =>
            match refresh_each refresh b rest with
            | (r, rest') => (r, x' :: rest')
            end
        end
  end.

(** [Directory.refresh].  On an exception the object keeps what the
    call had already assigned. *)
Fixpoint Directory_refresh (fs : filesystem) (self : Directory)
    : result bool * Directory :=
  match self with
  | MkDirectory base subs fls e r d =>
      match Pathed_refresh fs base with
      | (inl err, base') => (inl err, MkDirectory base' subs fls e r d)
      | (inr refreshed, base') =>
          match refresh_each (Directory_refresh fs) refreshed subs with
          | (inl err, subs') => (inl err, MkDirectory base' subs' fls e r d)
          | (inr refreshed, subs') =>
              match refresh_each (File_refresh fs) refreshed fls with
              | (res, fls') => (res, MkDirectory base' subs' fls' e r d)
              end
          end
      end
  end.

Definition node_refresh (fs : filesystem) (n : node) : result bool * node :=
  match n with
  | DirectoryNode d =>
      match Directory_refresh fs d with (r, d') => (r, DirectoryNode d') end
  | FileNode f =>
      match File_refresh fs f with (r, f') => (r, FileNode f') end
  end.

(** A node is constructed when a call of its class returned it. *)
Inductive constructed : node → Prop :=
| constructed_Directory fs p parent_dir hash_files recursive recursive_depth w d w' :
    Directory_init fs p parent_dir hash_files recursive recursive_depth w
      = (inr d, w') →
    constructed (DirectoryNode d)
| constructed_File fs p parent_dir f :
    File_init fs p parent_dir = inr f →
    constructed (FileNode f).

End pathed.

(** ** Reading a tree *)

(** Every [Pathed] object of a tree, in the order [refresh] walks it. *)
Fixpoint Directory_nodes (self : Directory) : list Pathed :=
  dir_base self :: concat (map Directory_nodes (sub_dirs self))
                ++ map file_base (files self).

(** Every [File] of a tree. *)
Fixpoint Directory_all_files (self : Directory) : list File :=
  concat (map Directory_all_files (sub_dirs self)) ++ files self.

Definition Directory_paths (self : Directory) : list string :=
  map path (Directory_nodes self).

(** Levels of sub-directories below [self]. *)
Fixpoint Directory_height (self : Directory) : nat :=
  list_max (map (λ d, S (Directory_height d)) (sub_dirs self)).

Definition node_nodes (n : node) : list Pathed :=
  match n with
  | DirectoryNode d => Directory_nodes d
  | FileNode f => [file_base f]
  end.

Definition node_files (n : node) : list File :=
  match n with
  | DirectoryNode d => Directory_all_files d
  | FileNode f => [f]
  end.

Definition node_paths (n : node) : list string := map path (node_nodes n).

(** The two capability tags of a node. *)
Definition tags (b : Pathed) : bool * bool := (is_dir b, is_file b).

(** Every Directory of the tree is tagged as a directory only, every File
    as a file only. *)
Fixpoint Directory_well_tagged (self : Directory) : bool :=
  is_dir (dir_base self) && negb (is_file (dir_base self))
  && forallb Directory_well_tagged (sub_dirs self)
  && forallb (λ f, is_file (file_base f) && negb (is_dir (file_base f)))
             (files self).

Definition node_well_tagged (n : node) : bool :=
  match n with
  | DirectoryNode d => Directory_well_tagged d
  | FileNode f => is_file (file_base f) && negb (is_dir (file_base f))
  end.

(** The tree with [r] as the stored [__recursive] of every Directory. *)
Fixpoint with_recursive (r : bool) (self : Directory) : Directory :=
  MkDirectory (dir_base self) (map (with_recursive r) (sub_dirs self))
              (files self) (empty self) r (recursive_depth self).

(** The same on the outcome of a constructor call. *)
Definition outcome_with_recursive (r : bool) (o : result Directory * world)
    : result Directory * world :=
  match o with
  | (inl e, w) => (inl e, w)
  | (inr d, w) => (inr (with_recursive r d), w)
  end.

(** ** Objects and the filesystem they mirror *)

Definition inode_mtime (i : inode) : Z :=
  match i with IDir _ m _ _ | IFile _ m _ | IOther _ m _ => m end.

Definition same_kind (i j : inode) : bool :=
  match i, j with
  | IDir _ _ _ _, IDir _ _ _ _ | IFile _ _ _, IFile _ _ _
  | IOther _ _ _, IOther _ _ _ => true
  | _, _ => false
  end.

(** The stored modification time is the one on disk. *)
Definition Pathed_in_sync (fs : filesystem) (self : Pathed) : bool :=
  match os.path.getmtime fs (path self) with
  | inr m => bool_decide (last_modified self = m)
  | inl _ => false
  end.

Section in_sync.

Context {blake3 : Blake3}.

(** For a File that hashes, the cached hash and size are those of the
    contents on disk as well. *)
Definition File_in_sync (fs : filesystem) (self : File) : bool :=
  Pathed_in_sync fs (file_base self)
  && (if should_hash_files (file_base self) then
        match File_hash_file fs self, hash_attr self with
        | inr h, Some h' => bool_decide (h' = h)
        | _, _ => false
        end
        && match os.path.getsize fs (path (file_base self)), filesize_attr self with
           | inr sz, Some sz' => bool_decide (sz' = sz)
           | _, _ => false
           end
      else true).

Fixpoint Directory_in_sync (fs : filesystem) (self : Directory) : bool :=
  Pathed_in_sync fs (dir_base self)
  && forallb (Directory_in_sync fs) (sub_dirs self)
  && forallb (File_in_sync fs) (files self).

Definition node_in_sync (fs : filesystem) (n : node) : bool :=
  match n with
  | DirectoryNode d => Directory_in_sync fs d
  | FileNode f => File_in_sync fs f
  end.

End in_sync.

(** No object of the tree hashes, and no File holds a hash. *)
Fixpoint Directory_hashing_off (self : Directory) : bool :=
  negb (should_hash_files (dir_base self))
  && forallb Directory_hashing_off (sub_dirs self)
  && forallb (λ f, negb (should_hash_files (file_base f))
                   && bool_decide (hash_attr f = None))
             (files self).

(** ** Filesystems whose listings name each entry once *)

Fixpoint no_sep (s : string) : bool :=
  match s with
  | EmptyString => true
  | String c rest => negb (bool_decide (c = "/"%char)) && no_sep rest
  end.

(** A name as [os.listdir] returns it: not empty, without separator. *)
Definition entry_name (s : string) : bool :=
  negb (bool_decide (s = "")) && no_sep s.


Definition listing_well_formed (i : inode) : Prop :=
  match i with
  | IDir _ _ _ items => NoDup items ∧ Forall (λ item, entry_name item = true) items
  | _ => True
  end.

#[global] Instance listing_well_formed_dec i : Decision (listing_well_formed i).
Proof. destruct i; simpl; apply _. Defined.



(** The paths that the loop of [__populate] hands to [Directory] and to
    [File], in the order of the listing. *)
Definition listed_dirs (fs : filesystem) (self : Pathed) (depth : Z)
    (items : list string) : list string :=
  if bool_decide (depth >= 0)
  then List.filter (os.path.isdir fs) (map (os.path.join (path self)) items)
  else [].

Definition listed_files (fs : filesystem) (self : Pathed)
    (items : list string) : list string :=
  List.filter (λ ip, negb (os.path.isdir fs ip) && os.path.isfile fs ip)
              (map (os.path.join (path self)) items).


(** ** A filesystem to run the code on *)

Definition hex_digit (n : N) : ascii :=
  match n with
  | 0 => "0" | 1 => "1" | 2 => "2" | 3 => "3" | 4 => "4" | 5 => "5"
  | 6 => "6" | 7 => "7" | 8 => "8" | 9 => "9" | 10 => "a" | 11 => "b"
  | 12 => "c" | 13 => "d" | 14 => "e" | _ => "f"
  end%N%char.

Fixpoint hex_of_bytes (bs : list byte) : string :=
  match bs with
  | [] => ""
  | b :: rest =>
      let n := Byte.to_N b in
      String (hex_digit (n / 16))
             (String (hex_digit (n mod 16)) (hex_of_bytes rest))
  end.

(** A stand-in for the digest when the code is run: the bytes themselves
    in hexadecimal. *)
Definition hex_blake3 : Blake3 := hex_of_bytes.

(** [/r] holds [a.txt] (the two bytes of "hi"), the empty [b.txt] and the
    directory [sub], which holds [c.txt] and the directory [deep] with
    [d.txt]. *)
Definition fs0 : filesystem :=
  list_to_map [
    ("/r", IDir 1 10 4096 ["a.txt"; "b.txt"; "sub"]);
    ("/r/a.txt", IFile 2 20 [x68; x69]%byte);
    ("/r/b.txt", IFile 3 30 []);
    ("/r/sub", IDir 4 40 4096 ["c.txt"; "deep"]);
    ("/r/sub/c.txt", IFile 5 50 [x63]%byte);
    ("/r/sub/deep", IDir 6 60 4096 ["d.txt"]);
    ("/r/sub/deep/d.txt", IFile 7 70 [x64]%byte)].

(** [fs0] after [a.txt] was overwritten with "hey". *)
Definition fs0_a_edited : filesystem :=
  <["/r/a.txt" := IFile 2 21 [x68; x65; x79]%byte]> fs0.

(** [fs0] after both [a.txt] and [b.txt] were touched. *)
Definition fs0_ab_touched : filesystem :=
  <["/r/b.txt" := IFile 3 31 []]> (<["/r/a.txt" := IFile 2 21 [x68; x69]%byte]> fs0).

(** [fs0] after one atomic save of [a.txt]: "hey" was written to a
    temporary file in [/r], which was then renamed over [a.txt].  The one
    edit gives [a.txt] a new inode with a new modification time, and the
    rename gives [/r] a new modification time. *)
Definition fs0_a_saved : filesystem :=
  <["/r/a.txt" := IFile 9 21 [x68; x65; x79]%byte]>
    (<["/r" := IDir 1 11 4096 ["a.txt"; "b.txt"; "sub"]]> fs0).

(** [/r] with a socket between two files. *)
Definition fs_sock : filesystem :=
  list_to_map [
    ("/r", IDir 1 10 4096 ["a.txt"; "sock"; "b.txt"]);
    ("/r/a.txt", IFile 2 20 [x68; x69]%byte);
    ("/r/sock", IOther 8 80 0);
    ("/r/b.txt", IFile 3 30 [])].

Definition w0 : world := World 0 [].

Definition no_Directory : Directory :=
  MkDirectory (MkPathed None "" "" 0 false false 0 0 false) [] [] false false 0.

(** [Directory("/r")] on [fs0], with every argument at its default. *)
Definition tree0 : Directory :=
  Eval vm_compute in
    match Directory_init (blake3 := hex_blake3) fs0 "/r" None false false 0 w0 with
    | (inr d, _) => d
    | (inl _, _) => no_Directory
    end.

Definition no_File : File :=
  MkFile (MkPathed None "" "" 0 false false 0 0 false) None None.

(** [File("/r/a.txt", parent)] on [fs0]. *)
Definition file_a : File :=
  Eval vm_compute in
    match File_init (blake3 := hex_blake3) fs0 "/r/a.txt" (Some "/r") with
    | inr f => f
    | inl _ => no_File
    end.

(** The value of [File.__hash_file] on a file with the given contents. *)
Definition hash_of_contents {blake3 : Blake3} (contents : list byte) : hash_value :=
  if bool_decide (0 < length contents)%nat
  then HexDigest (blake3_hexdigest contents)
  else EmptyBytes.


(** ** Further readings of a tree *)

(** Every child holds, as its parent, the path of the Directory that
    lists it. *)
Fixpoint Directory_parents_linked (self : Directory) : bool :=
  forallb (λ d, bool_decide (parent (dir_base d) = Some (path (dir_base self)))
                && Directory_parents_linked d)
          (sub_dirs self)
  && forallb (λ f, bool_decide (parent (file_base f) = Some (path (dir_base self))))
             (files self).

(** Every Directory stores the flag [r], and the budget [depth] lowered
    by one for each level below the root. *)
Fixpoint Directory_budgets (r : bool) (depth : Z) (self : Directory) : bool :=
  bool_decide (recursive self = r)
  && bool_decide (recursive_depth self = depth)
  && forallb (Directory_budgets r (depth - 1)) (sub_dirs self).

(** An object with what [refresh] and [hash] may assign blanked: the
    modification time, and for a File the size and the hash. *)
Definition Pathed_forget (b : Pathed) : Pathed := set_last_modified 0 b.

Definition File_forget (f : File) : File :=
  {| file_base := Pathed_forget (file_base f);
     filesize_attr := None; hash_attr := None |}.

Fixpoint Directory_forget (self : Directory) : Directory :=
  MkDirectory (Pathed_forget (dir_base self))
              (map Directory_forget (sub_dirs self))
              (map File_forget (files self))
              (empty self) (recursive self) (recursive_depth self).

(** What [print] writes for [k] files counted from [n]: [n+1], ..., [n+k]. *)
Fixpoint counted (n : Z) (k : nat) : list Z :=
  match k with
  | O => []
  | S k' => (n + 1) :: counted (n + 1) k'
  end.

(** The module state [w'] is [w] after [k] more files were counted. *)
Definition counted_on (w : world) (k : nat) (w' : world) : Prop :=
  file_count w' = file_count w + Z.of_nat k
  ∧ stdout w' = stdout w ++ counted (file_count w) k.

(** [fs0] after [new.txt] was created in [/r], with the modification
    times as they were. *)
Definition fs0_added : filesystem :=
  <["/r/new.txt" := IFile 9 90 [x6e]%byte]>
    (<["/r" := IDir 1 10 4096 ["a.txt"; "b.txt"; "sub"; "new.txt"]]> fs0).

(** [fs0] after [b.txt] was removed behind the back of the tree. *)
Definition fs0_b_removed : filesystem := delete "/r/b.txt" fs0.

(** [file_a] as an object that hashes, with the hash and size of "hi"
    cached. *)
Definition file_a_hashing : File :=
  {| file_base :=
       {| parent := Some "/r"; path := "/r/a.txt"; name := "a.txt";
          last_refreshed := -1; is_dir := false; is_file := true;
          created_at := 2; last_modified := 20; should_hash_files := true |};
     filesize_attr := Some 2;
     hash_attr := Some (HexDigest "6869") |}.

(** [fs0] after [a.txt] was overwritten with "ho", the modification time
    put back to what it was. *)
Definition fs0_a_rewritten : filesystem :=
  <["/r/a.txt" := IFile 2 20 [x68; x6f]%byte]> fs0.

(** * Properties *)

Section properties.

Context {blake3 : Blake3}.

(** ** Reasoning support *)

Lemma Directory_tree_ind (P : Directory → Prop) :
  (∀ base subs fls e r d,
      Forall P subs → P (MkDirectory base subs fls e r d)) →
  ∀ self, P self.
Proof.
  intros step. fix IH 1. intros [base subs fls e r d].
  apply step. induction subs as [|sd subs IHsubs]; constructor; auto.
Qed.

Lemma Directory_paths_eq base subs fls e r dp :
  Directory_paths (MkDirectory base subs fls e r dp)
  = path base :: concat (map Directory_paths subs)
              ++ map (λ f, path (file_base f)) fls.
Proof.
  unfold Directory_paths. simpl. f_equal.
  rewrite map_app, concat_map, !map_map. done.
Qed.

Lemma forallb_Forall {A} (f : A → bool) (l : list A) :
  forallb f l = true ↔ Forall (λ x, f x = true) l.
Proof.
  induction l as [|x l IH]; simpl.
  - split; [constructor|done].
  - rewrite andb_true_iff, IH. split.
    + intros [??]. by constructor.
    + by inversion 1.
Qed.

Lemma Forall2_ignore_l {A B} (P : B → Prop) (l : list A) (k : list B) :
  Forall2 (λ _ y, P y) l k → Forall P k.
Proof. induction 1; constructor; auto. Qed.

Lemma Pathed_init_inv fs cls p path_method path_error par hf base :
  Pathed_init fs cls p path_method path_error par hf = inr base →
  path_method fs p = true
  ∧ path base = p ∧ parent base = par
  ∧ is_dir base = issubclass cls ClsDirectory
  ∧ is_file base = issubclass cls ClsFile
  ∧ should_hash_files base = hf
  ∧ os.path.getctime fs p = inr (created_at base)
  ∧ os.path.getmtime fs p = inr (last_modified base).
Proof.
  unfold Pathed_init, os.path.abspath, rbind.
  destruct (path_method fs p); simpl; [|discriminate].
  destruct (os.path.getctime fs p) as [?|c]; [discriminate|].
  destruct (os.path.getmtime fs p) as [?|m]; [discriminate|].
  intros [= <-]. simpl. repeat split; reflexivity.
Qed.

Lemma File_init_inv fs p par f :
  File_init fs p par = inr f →
  os.path.isfile fs p = true
  ∧ path (file_base f) = p ∧ parent (file_base f) = par
  ∧ is_dir (file_base f) = false ∧ is_file (file_base f) = true
  ∧ should_hash_files (file_base f) = false
  ∧ os.path.getmtime fs p = inr (last_modified (file_base f))
  ∧ hash_attr f = None
  ∧ ∃ sz, os.path.getsize fs p = inr sz ∧ filesize_attr f = Some sz.
Proof.
  unfold File_init, rbind.
  destruct (Pathed_init _ _ _ _ _ _ _) as [?|base] eqn:Hbase; [discriminate|].
  apply Pathed_init_inv in Hbase as (Hm & Hp & Hpar & Hd & Hf & Hh & _ & Hmt).
  unfold File_calculate_hash_and_size, bind, get, lift, modify, ret. simpl.
  rewrite Hh, Hp.
  destruct (os.path.getsize fs p) as [?|sz]; [discriminate|].
  intros [= <-]. simpl. rewrite Hp, Hpar, Hd, Hf, Hh.
  repeat split; try done. by exists sz.
Qed.


(** What the loop of [__populate] builds from a listing that it scans to
    the end, for any constructor [new_Directory] whose results satisfy
    [Rd]. *)
Lemma populate_loop_spec fs new_Directory self rec depth
    (Rd : string → Directory → Prop) (Rf : string → File → Prop) :
  (∀ ip w t w',
      new_Directory ip (Some (path self)) (should_hash_files self) rec
                    (depth - 1) w = (inr t, w') → Rd ip t) →
  (∀ ip f, File_init fs ip (Some (path self)) = inr f → Rf ip f) →
  ∀ items subs fls w subs' fls' w',
    populate_loop fs new_Directory self rec depth items subs fls w
      = (inr (subs', fls'), w') →
    ∃ new_subs new_fls,
      subs' = subs ++ new_subs ∧ fls' = fls ++ new_fls
      ∧ Forall2 Rd (listed_dirs fs self depth items) new_subs
      ∧ Forall2 Rf (listed_files fs self items) new_fls
      ∧ Forall (λ item, os.path.isdir fs (os.path.join (path self) item)
                        || os.path.isfile fs (os.path.join (path self) item))
               items.
Proof.
  intros Hd Hf. unfold listed_dirs, listed_files.
  destruct (bool_decide (depth >= 0)) eqn:Hdepth;
    induction items as [|item rest IH]; intros subs fls w subs' fls' w'; simpl.
  1,3: unfold ret; intros [= <- <- <-]; exists [], [];
       rewrite !app_nil_r; repeat split; constructor.
  all: rewrite Hdepth;
    destruct (os.path.isdir fs _) eqn:Hisdir; simpl;
    [ | destruct (os.path.isfile fs _) eqn:Hisfile; simpl; [|discriminate];
        unfold bind at 1, lift at 1;
        destruct (File_init fs _ _) as [?|f] eqn:Hnew; [discriminate|];
        unfold bind at 1, count_file at 1;
        intros Hloop;
        apply IH in Hloop as (ns & nf & -> & -> & H2d & H2f & Hall);
        exists ns, (f :: nf); rewrite <- app_assoc; simpl;
        repeat split; auto;
        constructor; solve [eauto | by rewrite ?Hisdir, ?Hisfile] ].
  - unfold bind at 1.
    destruct (new_Directory _ _ _ _ _ w) as [[e|d] w1] eqn:Hnew; [discriminate|].
    intros Hloop. apply IH in Hloop as (ns & nf & -> & -> & H2d & H2f & Hall).
    exists (d :: ns), nf. rewrite <- app_assoc. simpl.
    repeat split; auto; constructor; solve [eauto | by rewrite Hisdir].
  - intros Hloop. apply IH in Hloop as (ns & nf & -> & -> & H2d & H2f & Hall).
    exists ns, nf. repeat split; auto.
    all: constructor; [by rewrite Hisdir|done].
Qed.

(** The loop only calls the constructor under the guard on the budget,
    and with the budget lowered by one. *)
Lemma populate_loop_ext fs new1 new2 self rec depth :
  (depth >= 0 → ∀ ip w,
      new1 ip (Some (path self)) (should_hash_files self) rec (depth - 1) w
      = new2 ip (Some (path self)) (should_hash_files self) rec (depth - 1) w) →
  ∀ items subs fls w,
    populate_loop fs new1 self rec depth items subs fls w
    = populate_loop fs new2 self rec depth items subs fls w.
Proof.
  intros Hext. induction items as [|item rest IH]; intros subs fls w; simpl; [done|].
  destruct (os.path.isdir fs _).
  - case_bool_decide as Hdepth; [|apply IH].
    unfold bind. rewrite (Hext Hdepth).
    destruct (new2 _ _ _ _ _ w) as [[?|d] w1]; [done|apply IH].
  - destruct (os.path.isfile fs _); [|done].
    unfold bind, lift, count_file.
    destruct (File_init fs _ _); [done|apply IH].
Qed.

(** Scanning a listing is scanning its first part, then the rest. *)
Lemma populate_loop_app fs new_Directory self rec depth pre rest subs fls w :
  populate_loop fs new_Directory self rec depth (pre ++ rest) subs fls w
  = match populate_loop fs new_Directory self rec depth pre subs fls w with
    | (inl e, w1) => (inl e, w1)
    | (inr (subs1, fls1), w1) =>
        populate_loop fs new_Directory self rec depth rest subs1 fls1 w1
    end.
Proof.
  revert subs fls w. induction pre as [|item pre IH]; intros subs fls w; simpl; [done|].
  destruct (os.path.isdir fs _).
  - case_bool_decide; [|apply IH].
    unfold bind. destruct (new_Directory _ _ _ _ _ w) as [[?|d] w1]; [done|apply IH].
  - destruct (os.path.isfile fs _); [|done].
    unfold bind, lift, count_file.
    destruct (File_init fs _ _); [done|apply IH].
Qed.

(** The scan stops at an entry that is neither a directory nor a file. *)
Lemma populate_loop_unknown fs new_Directory self rec depth x post subs fls w :
  os.path.isdir fs (os.path.join (path self) x) = false →
  os.path.isfile fs (os.path.join (path self) x) = false →
  populate_loop fs new_Directory self rec depth (x :: post) subs fls w
  = (inl (EnvironmentError
            ("Unknown Directory Element: " +:+ os.path.join (path self) x)), w).
Proof. intros Hnodir Hnofile. cbn [populate_loop]. by rewrite Hnodir, Hnofile. Qed.

(** ** The fuel of [Directory_init] never runs out *)

Lemma depth_fuel_pred depth n :
  depth >= 0 → (depth_fuel depth ≤ S n)%nat → (depth_fuel (depth - 1) ≤ n)%nat.
Proof. unfold depth_fuel. lia. Qed.

Lemma Directory_init_fuel_S n fs p par hf rec depth w :
  Directory_init_fuel (S n) fs p par hf rec depth w
  = match Pathed_init fs ClsDirectory p os.path.isdir NotADirectoryError par false with
    | inl e => (inl e, w)
    | inr base =>
        match os.listdir fs (path base) with
        | inl e => (inl e, w)
        | inr items =>
            match populate_loop fs (Directory_init_fuel n fs) base rec depth
                                items [] [] w with
            | (inl e, w') => (inl e, w')
            | (inr ch, w') =>
                (inr (MkDirectory base ch.1 ch.2
                        (bool_decide (length items = 0%nat)) rec depth), w')
            end
        end
    end.
Proof.
  simpl. unfold bind, lift, ret.
  destruct (Pathed_init _ _ _ _ _ _ _) as [?|base]; [done|].
  by destruct (os.listdir fs (path base)).
Qed.

Lemma Directory_init_fuel_irrel n1 :
  ∀ n2 fs p par hf rec depth w,
    (depth_fuel depth ≤ n1)%nat → (depth_fuel depth ≤ n2)%nat →
    Directory_init_fuel n1 fs p par hf rec depth w
    = Directory_init_fuel n2 fs p par hf rec depth w.
Proof.
  induction n1 as [|n1 IH]; intros n2 fs p par hf rec depth w H1 H2.
  { unfold depth_fuel in H1. lia. }
  destruct n2 as [|n2]; [unfold depth_fuel in H2; lia|].
  rewrite !Directory_init_fuel_S.
  destruct (Pathed_init _ _ _ _ _ _ _) as [?|base]; [done|].
  destruct (os.listdir fs (path base)) as [?|items]; [done|].
  rewrite (populate_loop_ext fs (Directory_init_fuel n1 fs)
             (Directory_init_fuel n2 fs)); [done|].
  intros Hdepth ip w1. apply IH; by apply depth_fuel_pred.
Qed.

Lemma Directory_init_fuel_enough fuel fs p par hf rec depth w :
  (depth_fuel depth ≤ fuel)%nat →
  Directory_init_fuel fuel fs p par hf rec depth w
  = Directory_init fs p par hf rec depth w.
Proof. intros. unfold Directory_init. by apply Directory_init_fuel_irrel. Qed.

(** [Directory.__init__] as the source has it, without fuel. *)
Lemma Directory_init_eq fs p par hf rec depth w :
  Directory_init fs p par hf rec depth w
  = (do base <- lift (Pathed_init fs ClsDirectory p os.path.isdir
                        NotADirectoryError par false);
     do items <- lift (os.listdir fs (path base));
     let empty := bool_decide (length items = 0%nat) in
     do children <- Directory_populate fs base rec depth items;
     ret (MkDirectory base children.1 children.2 empty rec depth)) w.
Proof.
  unfold Directory_init at 1, depth_fuel. rewrite Directory_init_fuel_S.
  unfold bind, lift, ret, Directory_populate.
  destruct (Pathed_init _ _ _ _ _ _ _) as [?|base]; [done|].
  destruct (os.listdir fs (path base)) as [?|items]; [done|].
  rewrite (populate_loop_ext fs (Directory_init_fuel (Z.to_nat (depth + 1)) fs)
             (Directory_init fs)); [done|].
  intros Hdepth ip w1. apply Directory_init_fuel_enough. unfold depth_fuel. lia.
Qed.

Lemma Directory_init_unfold fs p par hf rec depth w :
  Directory_init fs p par hf rec depth w
  = match Pathed_init fs ClsDirectory p os.path.isdir NotADirectoryError par false with
    | inl e => (inl e, w)
    | inr base =>
        match os.listdir fs (path base) with
        | inl e => (inl e, w)
        | inr items =>
            match Directory_populate fs base rec depth items w with
            | (inl e, w') => (inl e, w')
            | (inr ch, w') =>
                (inr (MkDirectory base ch.1 ch.2
                        (bool_decide (length items = 0%nat)) rec depth), w')
            end
        end
    end.
Proof.
  rewrite Directory_init_eq. unfold bind, lift, ret.
  destruct (Pathed_init _ _ _ _ _ _ _) as [?|base]; [done|].
  by destruct (os.listdir fs (path base)).
Qed.

Lemma File_init_no_RecursionError fs p par : File_init fs p par ≠ inl RecursionError.
Proof.
  unfold File_init, Pathed_init, rbind, os.path.abspath.
  unfold os.path.isfile, os.path.getctime, os.path.getmtime.
  destruct (fs !! p) as [[| |]|] eqn:Hp; try discriminate. simpl.
  unfold File_calculate_hash_and_size, bind, get, lift, modify, ret,
    os.path.getsize. simpl. by rewrite Hp.
Qed.

Lemma populate_loop_no_RecursionError fs new_Directory self rec depth :
  (depth >= 0 → ∀ ip w w',
      new_Directory ip (Some (path self)) (should_hash_files self) rec (depth - 1) w
      ≠ (inl RecursionError, w')) →
  ∀ items subs fls w w',
    populate_loop fs new_Directory self rec depth items subs fls w
    ≠ (inl RecursionError, w').
Proof.
  intros Hnew. induction items as [|item rest IH]; intros subs fls w w'; simpl; [done|].
  destruct (os.path.isdir fs _).
  - case_bool_decide as Hdepth; [|apply IH].
    unfold bind.
    destruct (new_Directory _ _ _ _ _ w) as [[e|d] w1] eqn:Hd; [|apply IH].
    intros [= -> ->]. by eapply Hnew.
  - destruct (os.path.isfile fs _); [|done].
    unfold bind, lift, count_file.
    destruct (File_init fs _ _) as [e|f] eqn:Hf; [|apply IH].
    intros [= -> ->]. by eapply File_init_no_RecursionError.
Qed.

Lemma Directory_init_fuel_no_RecursionError fuel :
  ∀ fs p par hf rec depth w w',
    (depth_fuel depth ≤ fuel)%nat →
    Directory_init_fuel fuel fs p par hf rec depth w ≠ (inl RecursionError, w').
Proof.
  induction fuel as [|fuel IH]; intros fs p par hf rec depth w w' Hfuel.
  { unfold depth_fuel in Hfuel. lia. }
  rewrite Directory_init_fuel_S.
  destruct (Pathed_init _ _ _ _ _ _ _) as [e|base] eqn:Hbase.
  { intros [= -> ->]. revert Hbase.
    unfold Pathed_init, rbind. destruct (os.path.isdir fs p); simpl; [|done].
    unfold os.path.getctime, os.path.getmtime, os.path.abspath.
    by destruct (fs !! p) as [[| |]|]. }
  destruct (os.listdir fs (path base)) as [e|items] eqn:Hitems.
  { intros [= -> ->]. revert Hitems. unfold os.listdir.
    by destruct (fs !! path base) as [[| |]|]. }
  destruct (populate_loop _ _ _ _ _ _ _ _ _) as [[e|ch] w1] eqn:Hloop; [|done].
  intros [= -> ->]. revert Hloop. apply populate_loop_no_RecursionError.
  intros Hdepth ip w2 w3. apply IH. by apply depth_fuel_pred.
Qed.

(** The exception of the fuel is never the outcome of a constructor
    call: whatever the filesystem and the budget, [Directory_init]
    returns what the source returns or raises. *)
Lemma Directory_init_no_RecursionError fs p par hf rec depth w w' :
  Directory_init fs p par hf rec depth w ≠ (inl RecursionError, w').
Proof. by apply Directory_init_fuel_no_RecursionError. Qed.

(** ** What a constructor call returns *)

(** Induction over the calls nested in a successful [Directory(...)]:
    [Pd p depth d] holds of the Directory [d] built on [p] with budget
    [depth] as soon as it follows from its holding of the sub-directories,
    which were built with budget [depth - 1] on the directories of the
    listing (on none of them when the budget is negative). *)
Lemma Directory_init_fuel_ind fs (Pd : string → Z → Directory → Prop) :
  (∀ p par rec depth base items subs fls,
      Pathed_init fs ClsDirectory p os.path.isdir NotADirectoryError par false
        = inr base →
      os.listdir fs (path base) = inr items →
      Forall2 (λ ip d, Pd ip (depth - 1) d) (listed_dirs fs base depth items) subs →
      Forall2 (λ ip f, File_init fs ip (Some (path base)) = inr f)
              (listed_files fs base items) fls →
      Forall (λ item, os.path.isdir fs (os.path.join (path base) item)
                      || os.path.isfile fs (os.path.join (path base) item))
             items →
      Pd p depth (MkDirectory base subs fls
                    (bool_decide (length items = 0%nat)) rec depth)) →
  ∀ fuel p par hf rec depth w d w',
    Directory_init_fuel fuel fs p par hf rec depth w = (inr d, w') → Pd p depth d.
Proof.
  intros step. induction fuel as [|fuel IH]; intros p par hf rec depth w d w'.
  { discriminate. }
  rewrite Directory_init_fuel_S.
  destruct (Pathed_init _ _ _ _ _ _ _) as [?|base] eqn:Hbase; [discriminate|].
  destruct (os.listdir fs (path base)) as [?|items] eqn:Hitems; [discriminate|].
  destruct (populate_loop _ _ _ _ _ _ _ _ _) as [[?|[subs fls]] w1] eqn:Hloop;
    [discriminate|].
  intros [= <- <-]. simpl.
  eapply (populate_loop_spec _ _ _ _ _ (λ ip d, Pd ip (depth - 1) d)
            (λ ip f, File_init fs ip (Some (path base)) = inr f)) in Hloop
    as (ns & nf & -> & -> & H2d & H2f & Hall); eauto.
Qed.

Lemma Forall2_forallb_r {A B} (f : B → bool) (l : list A) (k : list B) :
  Forall2 (λ _ y, f y = true) l k → forallb f k = true.
Proof. induction 1; simpl; [done|]. by apply andb_true_iff. Qed.

Lemma Forall2_impl_r {A B} (P : A → B → Prop) (Q : B → Prop) (l : list A) (k : list B) :
  Forall2 P l k → (∀ x y, P x y → Q y) → Forall Q k.
Proof. induction 1; intros HPQ; constructor; eauto. Qed.

(** Whatever [hash_files] the caller passes, no object of the tree hashes
    and no File holds a hash. *)
Lemma Directory_init_hashing_off fs p par hf rec depth w d w' :
  Directory_init fs p par hf rec depth w = (inr d, w') →
  Directory_hashing_off d = true.
Proof.
  unfold Directory_init.
  apply (Directory_init_fuel_ind fs (λ _ _ d, Directory_hashing_off d = true)).
  clear. intros p par rec depth base items subs fls Hbase _ Hsubs Hfls _. simpl.
  apply Pathed_init_inv in Hbase as (_ & _ & _ & _ & _ & -> & _). simpl.
  apply andb_true_iff. split.
  - by eapply Forall2_forallb_r.
  - apply forallb_Forall. eapply Forall2_impl_r; [exact Hfls|].
    intros ip f Hf. apply File_init_inv in Hf as (_&_&_&_&_& -> &_& -> &_). done.
Qed.

(** Every object of the tree carries the tags of its class. *)
Lemma Directory_init_well_tagged fs p par hf rec depth w d w' :
  Directory_init fs p par hf rec depth w = (inr d, w') →
  Directory_well_tagged d = true.
Proof.
  unfold Directory_init.
  apply (Directory_init_fuel_ind fs (λ _ _ d, Directory_well_tagged d = true)).
  clear. intros p par rec depth base items subs fls Hbase _ Hsubs Hfls _. simpl.
  apply Pathed_init_inv in Hbase as (_ & _ & _ & -> & -> & _). simpl.
  apply andb_true_iff. split.
  - by eapply Forall2_forallb_r.
  - apply forallb_Forall. eapply Forall2_impl_r; [exact Hfls|].
    intros ip f Hf. apply File_init_inv in Hf as (_&_&_& -> & -> &_). done.
Qed.

Lemma Pathed_in_sync_getmtime fs b :
  Pathed_in_sync fs b = true ↔ os.path.getmtime fs (path b) = inr (last_modified b).
Proof.
  unfold Pathed_in_sync. destruct (os.path.getmtime fs (path b)) as [?|m].
  - split; discriminate.
  - rewrite bool_decide_eq_true. split; [by intros ->|by intros [= ->]].
Qed.

(** A tree mirrors the filesystem it was built from. *)
Lemma Directory_init_in_sync fs p par hf rec depth w d w' :
  Directory_init fs p par hf rec depth w = (inr d, w') →
  Directory_in_sync fs d = true.
Proof.
  unfold Directory_init.
  apply (Directory_init_fuel_ind fs (λ _ _ d, Directory_in_sync fs d = true)).
  clear. intros p par rec depth base items subs fls Hbase _ Hsubs Hfls _. simpl.
  apply Pathed_init_inv in Hbase as (_ & Hp & _ & _ & _ & _ & _ & Hm).
  rewrite !andb_true_iff. repeat split.
  - apply Pathed_in_sync_getmtime. by rewrite Hp.
  - by eapply Forall2_forallb_r.
  - apply forallb_Forall. eapply Forall2_impl_r; [exact Hfls|].
    intros ip f Hf. apply File_init_inv in Hf as (_& Hip &_&_&_& Hh & Hmt &_).
    unfold File_in_sync. rewrite Hh, andb_true_r.
    apply Pathed_in_sync_getmtime. by rewrite Hip.
Qed.

Lemma File_init_in_sync fs p par f :
  File_init fs p par = inr f → File_in_sync fs f = true.
Proof.
  intros Hf. apply File_init_inv in Hf as (_& Hip &_&_&_& Hh & Hmt &_).
  unfold File_in_sync. rewrite Hh, andb_true_r.
  apply Pathed_in_sync_getmtime. by rewrite Hip.
Qed.

(** X17.  A budget of [depth] builds at most [depth + 1] levels of
    sub-directories, and none when it is negative. *)
Lemma Directory_init_height fs p par hf rec depth w d w' :
  Directory_init fs p par hf rec depth w = (inr d, w') →
  (Directory_height d ≤ Z.to_nat (depth + 1))%nat.
Proof.
  unfold Directory_init.
  apply (Directory_init_fuel_ind fs
           (λ _ depth d, (Directory_height d ≤ Z.to_nat (depth + 1))%nat)).
  clear. intros p par rec depth base items subs fls _ _ Hsubs _ _. simpl.
  apply list_max_le, Forall_map. unfold listed_dirs in Hsubs.
  case_bool_decide as Hdepth.
  - eapply Forall2_impl_r; [exact Hsubs|]. simpl. intros _ d Hd. lia.
  - inversion Hsubs. constructor.
Qed.

(** ** [refresh] on a tree that mirrors the filesystem *)

Lemma Pathed_refresh_eq fs b :
  Pathed_refresh fs b
  = match os.path.getmtime fs (path b) with
    | inl e => (inl e, b)
    | inr m =>
        if bool_decide (last_modified b = m) then (inr false, b)
        else (inr true, set_last_modified m b)
    end.
Proof.
  unfold Pathed_refresh, bind, get, lift, modify, ret.
  destruct (os.path.getmtime fs (path b)); [done|]. by case_bool_decide.
Qed.

Lemma File_calculate_hash_and_size_eq fs f :
  File_calculate_hash_and_size fs f
  = let size_of g :=
      match os.path.getsize fs (path (file_base f)) with
      | inl e => (inl e, g)
      | inr sz => (inr tt, set_filesize sz g)
      end in
    if should_hash_files (file_base f) then
      match File_hash_file fs f with
      | inl e => (inl e, f)
      | inr h => size_of (set_hash h f)
      end
    else size_of f.
Proof.
  unfold File_calculate_hash_and_size, bind, get, lift, modify, ret. simpl.
  destruct (should_hash_files (file_base f)).
  - destruct (File_hash_file fs f); [done|].
    by destruct (os.path.getsize fs (path (file_base f))).
  - by destruct (os.path.getsize fs (path (file_base f))).
Qed.

Lemma Pathed_refresh_in_sync fs b :
  Pathed_in_sync fs b = true → Pathed_refresh fs b = (inr false, b).
Proof.
  intros H%Pathed_in_sync_getmtime. rewrite Pathed_refresh_eq, H.
  by rewrite bool_decide_true.
Qed.

Lemma File_refresh_in_sync fs f :
  File_in_sync fs f = true → File_refresh fs f = (inr false, f).
Proof.
  unfold File_in_sync. intros [Hb Hh]%andb_true_iff.
  unfold File_refresh, bind at 1, zoom.
  rewrite (Pathed_refresh_in_sync _ _ Hb).
  destruct f as [b sz h]. simpl in *. unfold set_file_base. simpl.
  unfold bind at 1, get at 1. simpl.
  destruct (should_hash_files b) eqn:Hhash; [|done].
  apply andb_true_iff in Hh as [Hh Hsz].
  destruct (File_hash_file fs _) as [?|h'] eqn:Hfile; [done|].
  destruct h as [h|]; [|done]. apply bool_decide_eq_true in Hh as ->.
  destruct (os.path.getsize fs (path b)) as [?|sz'] eqn:Hsize; [done|].
  destruct sz as [sz|]; [|done]. apply bool_decide_eq_true in Hsz as ->.
  unfold bind at 1, getattr at 1. simpl. unfold bind at 1.
  rewrite File_calculate_hash_and_size_eq. simpl.
  rewrite Hhash, Hfile, Hsize. unfold set_filesize, set_hash. simpl.
  unfold bind, getattr, ret. simpl. by rewrite bool_decide_true.
Qed.

Lemma refresh_each_true {A} (refresh : ST A bool) (l : list A) :
  refresh_each refresh true l = (inr true, l).
Proof. induction l as [|x l IH]; simpl; [done|]. by rewrite IH. Qed.

Lemma refresh_each_unchanged {A} (refresh : ST A bool) (l : list A) :
  Forall (λ x, refresh x = (inr false, x)) l →
  refresh_each refresh false l = (inr false, l).
Proof. induction 1 as [|x l Hx _ IH]; simpl; [done|]. by rewrite Hx, IH. Qed.

Lemma refresh_each_first_changed {A} (refresh : ST A bool) (l1 l2 : list A) x x' :
  Forall (λ y, refresh y = (inr false, y)) l1 →
  refresh x = (inr true, x') →
  refresh_each refresh false (l1 ++ x :: l2) = (inr true, l1 ++ x' :: l2).
Proof.
  intros Hl1 Hx. induction Hl1 as [|y l1 Hy _ IH]; simpl.
  - by rewrite Hx, refresh_each_true.
  - by rewrite Hy, IH.
Qed.

Lemma Directory_refresh_in_sync fs d :
  Directory_in_sync fs d = true → Directory_refresh fs d = (inr false, d).
Proof.
  induction d as [base subs fls e r dp IH] using Directory_tree_ind. simpl.
  rewrite !andb_true_iff. intros [[Hb Hsubs] Hfls].
  rewrite (Pathed_refresh_in_sync _ _ Hb).
  rewrite refresh_each_unchanged.
  - rewrite refresh_each_unchanged; [done|].
    apply forallb_Forall in Hfls. eapply Forall_impl; [exact Hfls|].
    intros f. apply File_refresh_in_sync.
  - apply forallb_Forall in Hsubs.
    eapply Forall_impl; [apply Forall_and; split; [exact IH|exact Hsubs]|].
    simpl. intros c [Hc1 Hc2]. auto.
Qed.

Lemma node_refresh_in_sync fs n :
  node_in_sync fs n = true → node_refresh fs n = (inr false, n).
Proof.
  destruct n as [d|f]; simpl; intros H.
  - by rewrite Directory_refresh_in_sync.
  - by rewrite File_refresh_in_sync.
Qed.

(** ** What [refresh] returns *)

Lemma Pathed_refresh_result fs b r b' :
  Pathed_refresh fs b = (inr r, b') → r = negb (Pathed_in_sync fs b).
Proof.
  rewrite Pathed_refresh_eq. unfold Pathed_in_sync.
  destruct (os.path.getmtime fs (path b)); [done|].
  case_bool_decide; by intros [= <- <-].
Qed.

Lemma File_refresh_result fs f r f' :
  should_hash_files (file_base f) = false →
  File_refresh fs f = (inr r, f') → r = negb (File_in_sync fs f).
Proof.
  intros Hoff. unfold File_refresh, bind at 1, zoom, File_in_sync.
  rewrite Hoff, andb_true_r.
  pose proof (Pathed_refresh_result fs (file_base f)) as Hbase.
  rewrite Pathed_refresh_eq in *.
  destruct (os.path.getmtime fs (path (file_base f))); [done|].
  case_bool_decide; unfold bind, get; simpl; rewrite Hoff;
    intros [= <- <-]; by eapply Hbase.
Qed.

Lemma refresh_each_result {A} (refresh : ST A bool) (stale : A → bool)
    refreshed (l : list A) r l' :
  Forall (λ x, ∀ rx x', refresh x = (inr rx, x') → rx = stale x) l →
  refresh_each refresh refreshed l = (inr r, l') →
  r = refreshed || existsb stale l.
Proof.
  intros Hl. revert refreshed r l'.
  induction Hl as [|x l Hx _ IH]; intros refreshed r l'; simpl.
  { intros [= <- <-]. by rewrite orb_false_r. }
  destruct refreshed.
  - destruct (refresh_each refresh true l) as [r0 l0] eqn:Hrest.
    intros [= -> <-]. by apply IH in Hrest.
  - destruct (refresh x) as [[?|rx] x'] eqn:Hrx; [done|].
    destruct (refresh_each refresh rx l) as [r0 l0] eqn:Hrest.
    intros [= -> <-]. apply IH in Hrest. by rewrite <- (Hx _ _ eq_refl).
Qed.

Lemma negb_forallb {A} (f : A → bool) (l : list A) :
  negb (forallb f l) = existsb (λ x, negb (f x)) l.
Proof. induction l as [|x l IH]; simpl; [done|]. by rewrite negb_andb, IH. Qed.

(** On a tree that does not hash, a call of [refresh] that returns,
    returns true exactly when some object of the tree did not mirror the
    filesystem: skipping children does not change the value returned. *)
Lemma Directory_refresh_result fs d r d' :
  Directory_hashing_off d = true →
  Directory_refresh fs d = (inr r, d') → r = negb (Directory_in_sync fs d).
Proof.
  revert r d'.
  induction d as [base subs fls e r0 dp IH] using Directory_tree_ind.
  intros r d'. simpl. rewrite !andb_true_iff. intros [[_ Hsubs] Hfls].
  apply forallb_Forall in Hsubs, Hfls.
  destruct (Pathed_refresh fs base) as [[?|r1] base'] eqn:Hbase; [done|].
  apply Pathed_refresh_result in Hbase as ->.
  destruct (refresh_each (Directory_refresh fs) _ subs) as [[?|r2] subs'] eqn:Hrs;
    [done|].
  apply (refresh_each_result _ (λ c, negb (Directory_in_sync fs c))) in Hrs as ->.
  2:{ eapply Forall_impl; [apply Forall_and; split; [exact IH|exact Hsubs]|].
      simpl. intros c [IHc Hc] rx x'. by apply IHc. }
  destruct (refresh_each (File_refresh fs) _ fls) as [[?|r3] fls'] eqn:Hrf;
    intros [= <- <-].
  apply (refresh_each_result _ (λ f, negb (File_in_sync fs f))) in Hrf as ->.
  2:{ eapply Forall_impl; [exact Hfls|]. simpl. intros f Hf rx x'.
      apply File_refresh_result.
      by apply andb_true_iff in Hf as [->%negb_true_iff _]. }
  by rewrite !negb_andb, !negb_forallb.
Qed.

(** ** The paths of a constructed tree are distinct *)

Lemma append_cons c a b : String c a +:+ b = String c (a +:+ b).
Proof. reflexivity. Qed.

Lemma append_nil_l a : "" +:+ a = a.
Proof. reflexivity. Qed.

Lemma append_nil_r a : a +:+ "" = a.
Proof. induction a as [|c a IH]; [done|]. by rewrite append_cons, IH. Qed.

Lemma append_assoc a b c : (a +:+ b) +:+ c = a +:+ (b +:+ c).
Proof. induction a as [|x a IH]; [done|]. by rewrite !append_cons, IH. Qed.



Lemma endswith_sep_append s t :
  t ≠ "" → os.path.endswith_sep (s +:+ t) = os.path.endswith_sep t.
Proof.
  intros Ht. induction s as [|c s IH]; [done|].
  rewrite append_cons. simpl.
  destruct (s +:+ t) eqn:Hst; [|done].
  destruct s; [by destruct t|done].
Qed.














(** ** [refresh] after one edit *)

Lemma concat_map_split {A B} (f : A → list B) (l1 l2 : list A) x :
  concat (map f (l1 ++ x :: l2))
  = concat (map f l1) ++ f x ++ concat (map f l2).
Proof. by rewrite map_app, concat_app. Qed.

Lemma elem_of_concat_map {A B} (f : A → list B) (l : list A) y :
  y ∈ concat (map f l) → ∃ l1 x l2, l = l1 ++ x :: l2 ∧ y ∈ f x.
Proof.
  induction l as [|x l IH]; simpl; [by intros ?%elem_of_nil|].
  intros [Hy|Hy]%elem_of_app.
  - by exists [], x, l.
  - destruct (IH Hy) as (l1 & x' & l2 & -> & Hx'). by exists (x :: l1), x', l2.
Qed.

Lemma not_elem_of_concat_map {A B} (f : A → list B) (l : list A) y :
  y ∉ concat (map f l) → Forall (λ x, y ∉ f x) l.
Proof.
  induction l as [|x l IH]; simpl; [constructor|].
  rewrite elem_of_app. intros Hy. constructor; [tauto|]. apply IH. tauto.
Qed.

Lemma elem_of_map_split {A B} (g : A → B) (l : list A) y :
  y ∈ map g l → ∃ l1 x l2, l = l1 ++ x :: l2 ∧ g x = y.
Proof.
  induction l as [|x l IH]; simpl; [by intros ?%elem_of_nil|].
  intros [->|Hy]%elem_of_cons.
  - by exists [], x, l.
  - destruct (IH Hy) as (l1 & x' & l2 & -> & Hx'). by exists (x :: l1), x', l2.
Qed.

Lemma not_elem_of_map {A B} (g : A → B) (l : list A) y :
  y ∉ map g l → Forall (λ x, g x ≠ y) l.
Proof.
  induction l as [|x l IH]; simpl; [constructor|].
  rewrite elem_of_cons. intros Hy. constructor; [intros Heq; apply Hy; by left|].
  apply IH. tauto.
Qed.

Lemma forallb_app_cons {A} (f : A → bool) (l1 l2 : list A) x :
  forallb f (l1 ++ x :: l2) = forallb f l1 && f x && forallb f l2.
Proof. rewrite forallb_app. simpl. by rewrite andb_assoc. Qed.

Section one_edit.

(** The inode at [p] is replaced by one of the same kind with another
    modification time; nothing else changes. *)
Variable fs : filesystem.
Variable p : string.
Variables ino ino' : inode.
Hypothesis Hbefore : fs !! p = Some ino.
Hypothesis Hkind : same_kind ino ino' = true.
Hypothesis Hmtime : inode_mtime ino ≠ inode_mtime ino'.

Local Abbreviation fs' := (<[p := ino']> fs).

Lemma Pathed_in_sync_elsewhere b :
  path b ≠ p → Pathed_in_sync fs' b = Pathed_in_sync fs b.
Proof.
  intros Hp. unfold Pathed_in_sync, os.path.getmtime.
  by rewrite lookup_insert_ne.
Qed.

Lemma File_in_sync_elsewhere f :
  path (file_base f) ≠ p → File_in_sync fs' f = File_in_sync fs f.
Proof.
  intros Hp. unfold File_in_sync. rewrite Pathed_in_sync_elsewhere by done.
  unfold File_hash_file, os.read, os.path.getsize.
  by rewrite lookup_insert_ne.
Qed.

Lemma Directory_in_sync_elsewhere d :
  p ∉ Directory_paths d → Directory_in_sync fs' d = Directory_in_sync fs d.
Proof.
  induction d as [base subs fls e r dp IH] using Directory_tree_ind.
  rewrite Directory_paths_eq, elem_of_cons, elem_of_app. intros Hp. simpl.
  rewrite Pathed_in_sync_elsewhere
    by (intros Heq; apply Hp; left; symmetry; exact Heq).
  f_equal; [f_equal|].
  - assert (Hsubs : Forall (λ c, p ∉ Directory_paths c) subs)
      by (apply not_elem_of_concat_map; tauto).
    clear Hp. induction Hsubs as [|c subs Hc Hsubs IHsubs]; simpl; [done|].
    inversion IH as [|?? IHc IHrest]; subst.
    by rewrite IHc, IHsubs.
  - assert (Hfls : Forall (λ f, path (file_base f) ≠ p) fls)
      by (apply not_elem_of_map; tauto).
    clear Hp. induction Hfls as [|f fls Hf Hfls IHfls]; simpl; [done|].
    by rewrite File_in_sync_elsewhere, IHfls.
Qed.

Lemma getmtime_edited : os.path.getmtime fs' p = inr (inode_mtime ino').
Proof.
  unfold os.path.getmtime. rewrite lookup_insert_eq. by destruct ino'.
Qed.

Lemma Pathed_refresh_edited b :
  path b = p → Pathed_in_sync fs b = true →
  Pathed_refresh fs' b = (inr true, set_last_modified (inode_mtime ino') b).
Proof.
  intros Hp Hsync%Pathed_in_sync_getmtime.
  rewrite Pathed_refresh_eq, Hp, getmtime_edited.
  rewrite bool_decide_false; [done|].
  revert Hsync. rewrite Hp. unfold os.path.getmtime. rewrite Hbefore.
  destruct ino; intros [= <-]; done.
Qed.

Lemma Pathed_in_sync_edited b :
  path b = p → Pathed_in_sync fs' (set_last_modified (inode_mtime ino') b) = true.
Proof.
  intros Hp. apply Pathed_in_sync_getmtime. simpl. by rewrite Hp, getmtime_edited.
Qed.

Lemma File_refresh_edited f :
  path (file_base f) = p → File_in_sync fs f = true →
  ∃ f', File_refresh fs' f = (inr true, f') ∧ File_in_sync fs' f' = true.
Proof.
  intros Hp. unfold File_in_sync at 1. intros [Hb Hh]%andb_true_iff.
  unfold File_refresh, bind at 1, zoom.
  rewrite (Pathed_refresh_edited _ Hp Hb).
  destruct f as [b sz h]. simpl in *. unfold set_file_base. simpl.
  unfold bind at 1, get at 1. simpl.
  destruct (should_hash_files b) eqn:Hhash.
  - apply andb_true_iff in Hh as [Hh _].
    destruct h as [h|]; [|by destruct (File_hash_file fs _)].
    assert (∃ c m contents, ino' = IFile c m contents) as (c & m & contents & Hino').
    { revert Hh. unfold File_hash_file, os.read, rbind. simpl.
      rewrite Hp, Hbefore. destruct ino; try done.
      destruct ino'; try done. eauto. }
    unfold bind at 1, getattr at 1. simpl. unfold bind at 1.
    rewrite File_calculate_hash_and_size_eq. simpl. rewrite Hhash.
    unfold File_hash_file, os.read, os.path.getsize, rbind. simpl.
    rewrite Hp, lookup_insert_eq, Hino'. simpl.
    unfold bind, getattr, ret. simpl.
    eexists. split.
    + by destruct (negb _).
    + unfold File_in_sync. simpl. rewrite Hhash.
      unfold File_hash_file, os.read, os.path.getsize, rbind. simpl.
      rewrite Hp, lookup_insert_eq. simpl.
      rewrite !bool_decide_true by done.
      rewrite !andb_true_r.
      pose proof (Pathed_in_sync_edited b Hp) as Hb'.
      by rewrite Hino' in Hb'.
  - unfold ret. eexists. split; [done|].
    unfold File_in_sync. simpl. rewrite Hhash, andb_true_r.
    apply (Pathed_in_sync_edited b Hp).
Qed.

Lemma Directory_refresh_edited d :
  Directory_in_sync fs d = true → NoDup (Directory_paths d) →
  p ∈ Directory_paths d →
  ∃ d', Directory_refresh fs' d = (inr true, d')
        ∧ Directory_in_sync fs' d' = true.
Proof.
  induction d as [base subs fls e r dp IH] using Directory_tree_ind.
  rewrite Directory_paths_eq. simpl.
  rewrite !andb_true_iff. intros [[Hb Hsubs] Hfls].
  rewrite NoDup_cons, NoDup_app, elem_of_app.
  intros (Hbase & Hnd_subs & Hdisj & Hnd_fls).
  apply forallb_Forall in Hsubs, Hfls.
  assert (Hsubs_else : ∀ l, Forall (λ c, p ∉ Directory_paths c) l →
            Forall (λ c, Directory_in_sync fs c = true) l →
            Forall (λ c, Directory_in_sync fs' c = true) l).
  { intros l H1 H2. eapply Forall_impl; [apply Forall_and; split; [exact H1|exact H2]|].
    simpl. intros c [Hc1 Hc2]. by rewrite Directory_in_sync_elsewhere. }
  assert (Hfls_else : ∀ l, Forall (λ f, path (file_base f) ≠ p) l →
            Forall (λ f, File_in_sync fs f = true) l →
            Forall (λ f, File_in_sync fs' f = true) l).
  { intros l H1 H2. eapply Forall_impl; [apply Forall_and; split; [exact H1|exact H2]|].
    simpl. intros f [Hf1 Hf2]. by rewrite File_in_sync_elsewhere. }
  rewrite elem_of_cons, elem_of_app. intros [Hp|[Hp|Hp]].
  - (* the directory itself was edited *)
    rewrite (Pathed_refresh_edited base (eq_sym Hp) Hb), !refresh_each_true.
    eexists. split; [done|]. simpl.
    rewrite (Pathed_in_sync_edited base (eq_sym Hp)). simpl.
    apply andb_true_iff. split; apply forallb_Forall.
    + apply Hsubs_else; [|done]. apply not_elem_of_concat_map.
      rewrite Hp. tauto.
    + apply Hfls_else; [|done]. apply not_elem_of_map. rewrite Hp. tauto.
  - (* the edit is below a sub-directory *)
    assert (path base ≠ p) as Hne by (intros <-; tauto).
    rewrite Pathed_refresh_in_sync by (by rewrite Pathed_in_sync_elsewhere).
    apply elem_of_concat_map in Hp as (l1 & c & l2 & -> & Hc).
    rewrite concat_map_split in Hnd_subs, Hdisj.
    apply NoDup_app in Hnd_subs as (_ & Hl1 & Hnd_subs).
    apply NoDup_app in Hnd_subs as (Hnd_c & Hl2 & _).
    apply Forall_app in Hsubs as [Hs1 Hs2].
    apply Forall_cons in Hs2 as [Hsc Hs2].
    apply Forall_app in IH as [_ IH]. apply Forall_cons in IH as [IHc _].
    destruct (IHc Hsc Hnd_c Hc) as (c' & Hrc & Hc').
    assert (Forall (λ x, p ∉ Directory_paths x) l1) as Hp1.
    { apply not_elem_of_concat_map. intros Hin. apply (Hl1 _ Hin).
      apply elem_of_app. by left. }
    assert (Forall (λ x, p ∉ Directory_paths x) l2) as Hp2.
    { apply not_elem_of_concat_map. intros Hin. by apply (Hl2 _ Hc). }
    assert (Forall (λ f, path (file_base f) ≠ p) fls) as Hpf.
    { apply not_elem_of_map. apply Hdisj.
      apply elem_of_app. right. apply elem_of_app. by left. }
    rewrite (refresh_each_first_changed _ l1 l2 c c'); [|
      eapply Forall_impl; [exact (Hsubs_else _ Hp1 Hs1)|];
      intros x; apply Directory_refresh_in_sync | exact Hrc].
    rewrite refresh_each_true.
    eexists. split; [done|]. simpl.
    rewrite Pathed_in_sync_elsewhere by done. rewrite Hb. simpl.
    rewrite forallb_app_cons, Hc'.
    rewrite (proj2 (forallb_Forall _ _) (Hsubs_else _ Hp1 Hs1)).
    rewrite (proj2 (forallb_Forall _ _) (Hsubs_else _ Hp2 Hs2)). simpl.
    apply forallb_Forall. by apply Hfls_else.
  - (* the edit is to a file of the directory *)
    assert (path base ≠ p) as Hne by (intros <-; tauto).
    rewrite Pathed_refresh_in_sync by (by rewrite Pathed_in_sync_elsewhere).
    assert (Forall (λ x, p ∉ Directory_paths x) subs) as Hps.
    { apply not_elem_of_concat_map. intros Hin. by apply (Hdisj _ Hin). }
    rewrite refresh_each_unchanged; [|
      eapply Forall_impl; [exact (Hsubs_else _ Hps Hsubs)|];
      intros x; apply Directory_refresh_in_sync].
    apply elem_of_map_split in Hp as (l1 & f & l2 & -> & Hf).
    rewrite map_app in Hnd_fls. simpl in Hnd_fls.
    apply NoDup_app in Hnd_fls as (_ & Hl1 & Hnd_fls).
    apply NoDup_cons in Hnd_fls as (Hl2 & _).
    apply Forall_app in Hfls as [Hf1 Hf2].
    apply Forall_cons in Hf2 as [Hff Hf2].
    destruct (File_refresh_edited f Hf Hff) as (f' & Hrf & Hf').
    assert (Forall (λ x, path (file_base x) ≠ p) l1) as Hp1.
    { apply not_elem_of_map. intros Hin. apply (Hl1 _ Hin).
      rewrite Hf. by left. }
    assert (Forall (λ x, path (file_base x) ≠ p) l2) as Hp2.
    { apply not_elem_of_map. by rewrite <- Hf. }
    rewrite (refresh_each_first_changed _ l1 l2 f f'); [|
      eapply Forall_impl; [exact (Hfls_else _ Hp1 Hf1)|];
      intros x; apply File_refresh_in_sync | exact Hrf].
    eexists. split; [done|]. simpl.
    rewrite Pathed_in_sync_elsewhere by done. rewrite Hb. simpl.
    rewrite (proj2 (forallb_Forall _ _) (Hsubs_else _ Hps Hsubs)). simpl.
    rewrite forallb_app_cons, Hf'.
    rewrite (proj2 (forallb_Forall _ _) (Hfls_else _ Hp1 Hf1)).
    by rewrite (proj2 (forallb_Forall _ _) (Hfls_else _ Hp2 Hf2)).
Qed.

End one_edit.

(** ** The children of a Directory and the listing *)







(** ** The stored [recursive] flag *)

Lemma populate_loop_with_recursive fs new_r new_f self r depth :
  (∀ ip w,
      new_r ip (Some (path self)) (should_hash_files self) r (depth - 1) w
      = outcome_with_recursive r
          (new_f ip (Some (path self)) (should_hash_files self) false
                 (depth - 1) w)) →
  ∀ items subs fls w,
    populate_loop fs new_r self r depth items (map (with_recursive r) subs) fls w
    = match populate_loop fs new_f self false depth items subs fls w with
      | (inl e, w') => (inl e, w')
      | (inr ch, w') => (inr (map (with_recursive r) ch.1, ch.2), w')
      end.
Proof.
  intros Hnew. induction items as [|item rest IH]; intros subs fls w; simpl; [done|].
  destruct (os.path.isdir fs _).
  - case_bool_decide; [|apply IH].
    unfold bind. rewrite Hnew.
    destruct (new_f _ _ _ _ _ w) as [[?|d] w1]; simpl; [done|].
    rewrite <- IH. by rewrite map_app.
  - destruct (os.path.isfile fs _); [|done].
    unfold bind, lift, count_file.
    destruct (File_init fs _ _); [done|apply IH].
Qed.

Lemma Directory_init_fuel_with_recursive fuel :
  ∀ fs p par hf r depth w,
    Directory_init_fuel fuel fs p par hf r depth w
    = outcome_with_recursive r (Directory_init_fuel fuel fs p par hf false depth w).
Proof.
  induction fuel as [|fuel IH]; intros fs p par hf r depth w; [done|].
  rewrite !Directory_init_fuel_S.
  destruct (Pathed_init _ _ _ _ _ _ _) as [?|base]; [done|].
  destruct (os.listdir fs (path base)) as [?|items]; [done|].
  pose proof (populate_loop_with_recursive fs (Directory_init_fuel fuel fs)
                (Directory_init_fuel fuel fs) base r depth
                (λ ip w1, IH fs ip _ _ r _ w1) items [] [] w) as Hloop.
  simpl in Hloop. rewrite Hloop. clear Hloop.
  destruct (populate_loop _ _ _ _ _ _ _ _ _) as [[?|[subs fls]] w1]; reflexivity.
Qed.

Lemma refresh_each_with_recursive fs r refreshed (l : list Directory) :
  Forall (λ d, Directory_refresh fs (with_recursive r d)
               = ((Directory_refresh fs d).1,
                  with_recursive r (Directory_refresh fs d).2)) l →
  refresh_each (Directory_refresh fs) refreshed (map (with_recursive r) l)
  = ((refresh_each (Directory_refresh fs) refreshed l).1,
     map (with_recursive r) (refresh_each (Directory_refresh fs) refreshed l).2).
Proof.
  intros Hl. revert refreshed.
  induction Hl as [|d l Hd _ IH]; intros refreshed; simpl; [done|].
  destruct refreshed.
  - rewrite IH. by destruct (refresh_each _ true l).
  - rewrite Hd. destruct (Directory_refresh fs d) as [[?|b] d']; simpl; [done|].
    rewrite IH. by destruct (refresh_each _ b l).
Qed.

(** [refresh] does not read the flag either. *)
Lemma Directory_refresh_with_recursive fs r d :
  Directory_refresh fs (with_recursive r d)
  = ((Directory_refresh fs d).1, with_recursive r (Directory_refresh fs d).2).
Proof.
  induction d as [base subs fls e r0 dp IH] using Directory_tree_ind. simpl.
  destruct (Pathed_refresh fs base) as [[?|b] base']; [done|].
  rewrite (refresh_each_with_recursive fs r b subs IH).
  destruct (refresh_each (Directory_refresh fs) b subs) as [[?|b'] subs']; simpl; [done|].
  by destruct (refresh_each (File_refresh fs) b' fls).
Qed.

(** ** The tags under [refresh] and [hash] *)

Lemma refresh_each_Forall2 {A} (refresh : ST A bool) refreshed (l : list A) :
  Forall2 (λ x x', x' = x ∨ x' = (refresh x).2) l
          (refresh_each refresh refreshed l).2.
Proof.
  revert refreshed. induction l as [|x l IH]; intros refreshed; simpl; [constructor|].
  destruct refreshed.
  - specialize (IH true). destruct (refresh_each refresh true l). simpl in *.
    constructor; auto.
  - destruct (refresh x) as [[?|b] x'] eqn:Hx; simpl.
    + constructor; [right; by rewrite Hx|].
      apply Forall_Forall2_diag, Forall_true. by left.
    + specialize (IH b). destruct (refresh_each refresh b l). simpl in *.
      constructor; [right; by rewrite Hx|done].
Qed.

Lemma refresh_each_map {A B} (g : A → B) (refresh : ST A bool) refreshed l :
  Forall (λ x, g (refresh x).2 = g x) l →
  map g (refresh_each refresh refreshed l).2 = map g l.
Proof.
  intros Hl. pose proof (refresh_each_Forall2 refresh refreshed l) as H2.
  induction H2 as [|x x' l l' Hx _ IH]; simpl; [done|].
  apply Forall_cons in Hl as [Hgx Hl]. rewrite (IH Hl). f_equal.
  destruct Hx as [->| ->]; done.
Qed.

Lemma Pathed_refresh_tags fs b : tags (Pathed_refresh fs b).2 = tags b.
Proof.
  rewrite Pathed_refresh_eq. destruct (os.path.getmtime fs (path b)); [done|].
  by case_bool_decide.
Qed.

Lemma File_calculate_hash_and_size_base fs f :
  file_base (File_calculate_hash_and_size fs f).2 = file_base f.
Proof.
  rewrite File_calculate_hash_and_size_eq. simpl.
  destruct (should_hash_files (file_base f)).
  - destruct (File_hash_file fs f); [done|].
    by destruct (os.path.getsize fs _).
  - by destruct (os.path.getsize fs _).
Qed.

(** Reading [hash] leaves the [Pathed] part of a File as it is. *)
Lemma File_hash_base fs f : file_base (File_hash fs f).2 = file_base f.
Proof.
  unfold File_hash, bind.
  pose proof (File_calculate_hash_and_size_base fs f) as Hbase.
  destruct (File_calculate_hash_and_size fs f) as [[?|[]] f1]; simpl in *; [done|].
  unfold getattr. by destruct (hash_attr f1).
Qed.

Lemma File_refresh_tags fs f :
  tags (file_base (File_refresh fs f).2) = tags (file_base f).
Proof.
  unfold File_refresh, bind at 1, zoom.
  pose proof (Pathed_refresh_tags fs (file_base f)) as Htags.
  destruct (Pathed_refresh fs (file_base f)) as [[?|b] base']; simpl in *; [done|].
  unfold bind at 1, get at 1. simpl.
  destruct (should_hash_files base'); [|done].
  unfold bind at 1, getattr at 1. simpl.
  destruct (hash_attr f); [|done].
  unfold bind at 1.
  pose proof (File_calculate_hash_and_size_base fs (set_file_base base' f)) as Hbase.
  destruct (File_calculate_hash_and_size fs _) as [[?|[]] f1]; simpl in *;
    [by rewrite Hbase|].
  unfold bind, getattr. destruct (hash_attr f1); simpl; [|by rewrite Hbase].
  destruct (negb _); simpl; by rewrite Hbase.
Qed.

Lemma Directory_refresh_tags fs d :
  map tags (Directory_nodes (Directory_refresh fs d).2)
  = map tags (Directory_nodes d).
Proof.
  induction d as [base subs fls e r dp IH] using Directory_tree_ind.
  assert (∀ base' subs' fls',
            tags base' = tags base →
            map (λ c, map tags (Directory_nodes c)) subs'
            = map (λ c, map tags (Directory_nodes c)) subs →
            map (λ f, tags (file_base f)) fls' = map (λ f, tags (file_base f)) fls →
            map tags (Directory_nodes (MkDirectory base' subs' fls' e r dp))
            = map tags (Directory_nodes (MkDirectory base subs fls e r dp))) as Hcong.
  { intros base' subs' fls' Hb Hs Hf. simpl.
    rewrite !map_app, !concat_map, !map_map, Hb, Hs, Hf. done. }
  simpl.
  pose proof (Pathed_refresh_tags fs base) as Hbase.
  destruct (Pathed_refresh fs base) as [[?|b] base']; simpl in Hbase.
  { by apply Hcong. }
  pose proof (refresh_each_map (λ c, map tags (Directory_nodes c))
                (Directory_refresh fs) b subs IH) as Hsubs.
  destruct (refresh_each (Directory_refresh fs) b subs) as [[?|b'] subs'];
    simpl in Hsubs.
  { by apply Hcong. }
  pose proof (refresh_each_map (λ f, tags (file_base f)) (File_refresh fs) b' fls)
    as Hfls.
  destruct (refresh_each (File_refresh fs) b' fls) as [res fls']. simpl in Hfls.
  apply Hcong; [done..|]. apply Hfls, Forall_forall. intros f _.
  apply File_refresh_tags.
Qed.

Lemma node_refresh_tags fs n :
  map tags (node_nodes (node_refresh fs n).2) = map tags (node_nodes n).
Proof.
  destruct n as [d|f]; simpl.
  - pose proof (Directory_refresh_tags fs d) as H.
    by destruct (Directory_refresh fs d).
  - pose proof (File_refresh_tags fs f) as H.
    destruct (File_refresh fs f). simpl in *. by rewrite H.
Qed.

Lemma refresh_each_forallb {A} (f : A → bool) (refresh : ST A bool) refreshed l :
  Forall (λ x, f (refresh x).2 = f x) l →
  forallb f (refresh_each refresh refreshed l).2 = forallb f l.
Proof.
  intros Hl. pose proof (refresh_each_Forall2 refresh refreshed l) as H2.
  induction H2 as [|x x' l l' Hx _ IH]; simpl; [done|].
  apply Forall_cons in Hl as [Hfx Hl]. rewrite (IH Hl). f_equal.
  destruct Hx as [->| ->]; done.
Qed.

Lemma Directory_refresh_well_tagged fs d :
  Directory_well_tagged (Directory_refresh fs d).2 = Directory_well_tagged d.
Proof.
  induction d as [base subs fls e r dp IH] using Directory_tree_ind. simpl.
  pose proof (Pathed_refresh_tags fs base) as Hbase.
  destruct (Pathed_refresh fs base) as [[?|b] base']; simpl in Hbase;
    injection Hbase as Hd Hf.
  { simpl. by rewrite Hd, Hf. }
  pose proof (refresh_each_forallb Directory_well_tagged
                (Directory_refresh fs) b subs IH) as Hsubs.
  destruct (refresh_each (Directory_refresh fs) b subs) as [[?|b'] subs'];
    simpl in Hsubs.
  { simpl. by rewrite Hd, Hf, Hsubs. }
  pose proof (refresh_each_forallb
                (λ f, is_file (file_base f) && negb (is_dir (file_base f)))
                (File_refresh fs) b' fls) as Hfls.
  destruct (refresh_each (File_refresh fs) b' fls) as [res fls']. simpl in Hfls.
  simpl. rewrite Hd, Hf, Hsubs, Hfls; [done|].
  apply Forall_forall. intros f _.
  pose proof (File_refresh_tags fs f) as Htags. injection Htags as -> ->. done.
Qed.

Lemma node_refresh_well_tagged fs n :
  node_well_tagged (node_refresh fs n).2 = node_well_tagged n.
Proof.
  destruct n as [d|f]; simpl.
  - pose proof (Directory_refresh_well_tagged fs d) as H.
    by destruct (Directory_refresh fs d).
  - pose proof (File_refresh_tags fs f) as H.
    destruct (File_refresh fs f). simpl in *. by injection H as -> ->.
Qed.

(** ** Reading [hash] on a File that does not hash *)

(** No branch of [__calculate_hash_and_size] assigns [__hash] to a File
    whose [hash_files] is off, so reading it raises, whatever is on
    disk. *)
Lemma File_hash_unhashed fs f :
  should_hash_files (file_base f) = false → hash_attr f = None →
  ∃ e f', File_hash fs f = (inl e, f')
          ∧ should_hash_files (file_base f') = false ∧ hash_attr f' = None.
Proof.
  intros Hoff Hnone. unfold File_hash, bind.
  rewrite File_calculate_hash_and_size_eq. simpl. rewrite Hoff.
  destruct (os.path.getsize fs _) as [e|sz]; [by eauto|].
  unfold getattr. simpl. rewrite Hnone. by eauto.
Qed.

Lemma File_init_hash_raises fs p par f fs' :
  File_init fs p par = inr f → ∃ e f', File_hash fs' f = (inl e, f').
Proof.
  intros Hf. apply File_init_inv in Hf as (_&_&_&_&_& Hoff &_& Hnone &_).
  destruct (File_hash_unhashed fs' f Hoff Hnone) as (e & f' & -> & _). eauto.
Qed.

(** * The claims *)

(** X19.  From a state that mirrors the filesystem (as right after
    construction), for a File as for a Directory tree whose paths are
    distinct: with the filesystem unchanged, two consecutive calls of
    [refresh] both return false; after the inode at exactly one path of
    the node was replaced by one of the same kind with another
    modification time, every other path left as it was, the next call
    returns true and the call after it, with no further edit, returns
    false.  An edit that moves the modification times of two paths of the
    tree is not covered here. *)
Theorem refresh_reports_a_change_once fs (n : node) :
  node_in_sync fs n = true →
  (∃ n1 n2, node_refresh fs n = (inr false, n1)
            ∧ node_refresh fs n1 = (inr false, n2))
  ∧ ∀ p ino ino',
      NoDup (node_paths n) → p ∈ node_paths n →
      fs !! p = Some ino → same_kind ino ino' = true →
      inode_mtime ino ≠ inode_mtime ino' →
      ∃ n1 n2, node_refresh (<[p := ino']> fs) n = (inr true, n1)
               ∧ node_refresh (<[p := ino']> fs) n1 = (inr false, n2).
Proof.
  intros Hsync. split.
  - exists n, n. by rewrite node_refresh_in_sync.
  - intros p ino ino' Hnd Hp Hbefore Hkind Hmtime.
    destruct n as [d|f]; simpl in *.
    + destruct (Directory_refresh_edited fs p ino ino' Hbefore Hkind Hmtime d
                  Hsync Hnd Hp) as (d' & -> & Hd').
      exists (DirectoryNode d'), (DirectoryNode d'). split; [done|].
      simpl. by rewrite Directory_refresh_in_sync.
    + apply list_elem_of_singleton in Hp.
      destruct (File_refresh_edited fs p ino ino' Hbefore Hkind Hmtime f
                  (eq_sym Hp) Hsync) as (f' & -> & Hf').
      exists (FileNode f'), (FileNode f'). split; [done|].
      simpl. by rewrite File_refresh_in_sync.
Qed.

(** C7. [File.__hash_file] returns the hexadecimal digest of the bytes of
    a file that has contents, so that files with the same contents have
    the same hash, and for a file without contents it returns the empty
    value, which is not the digest of zero bytes. *)
Theorem hash_file_digest_or_empty fs f contents :
  os.read fs (path (file_base f)) = inr contents →
  (contents ≠ [] →
     File_hash_file fs f = inr (HexDigest (blake3_hexdigest contents)))
  ∧ (contents = [] →
     File_hash_file fs f = inr EmptyBytes
     ∧ File_hash_file fs f ≠ inr (HexDigest (blake3_hexdigest [])))
  ∧ (∀ fs' f', os.read fs' (path (file_base f')) = inr contents →
               File_hash_file fs' f' = File_hash_file fs f).
Proof.
  intros Hread. unfold File_hash_file. rewrite Hread. simpl.
  split; [|split].
  - intros Hne. rewrite bool_decide_true; [done|].
    destruct contents; [done|simpl; lia].
  - intros ->. simpl. split; [done|discriminate].
  - intros fs' f' ->. done.
Qed.

(** C8. When the listing of a directory holds an entry that is neither a
    directory nor a regular file, the construction raises.  If the entries
    before it were scanned without an exception, the exception names the
    path of that entry and the module state is the one the scan of those
    entries left: nothing after the entry is looked at.  (If an entry
    before it raised, that exception is the outcome.) *)
Theorem unknown_entry_aborts_scan fs p par hf rec depth w pre x post :
  os.listdir fs p = inr (pre ++ x :: post) →
  os.path.isdir fs (os.path.join p x) = false →
  os.path.isfile fs (os.path.join p x) = false →
  ∃ base,
    Pathed_init fs ClsDirectory p os.path.isdir NotADirectoryError par false
      = inr base
    ∧ match Directory_populate fs base rec depth pre w with
      | (inl e, w1) => Directory_init fs p par hf rec depth w = (inl e, w1)
      | (inr _, w1) =>
          Directory_init fs p par hf rec depth w
          = (inl (EnvironmentError
                    ("Unknown Directory Element: " +:+ os.path.join p x)), w1)
      end.
Proof.
  intros Hitems Hnodir Hnofile.
  destruct (Pathed_init fs ClsDirectory p os.path.isdir NotADirectoryError par false)
    as [e|base] eqn:Hbase.
  { revert Hbase Hitems. unfold Pathed_init, os.listdir, rbind, os.path.isdir,
      os.path.getctime, os.path.getmtime, os.path.abspath.
    by destruct (fs !! p) as [[| |]|]. }
  exists base. split; [done|].
  rewrite Directory_init_unfold, Hbase.
  apply Pathed_init_inv in Hbase as (_ & Hp & _).
  rewrite Hp, Hitems. unfold Directory_populate. rewrite populate_loop_app.
  destruct (populate_loop _ _ _ _ _ pre _ _ _) as [[e|[subs fls]] w1]; [done|].
  rewrite <- Hp in Hnodir, Hnofile.
  rewrite populate_loop_unknown by done. by rewrite Hp.
Qed.


(** C9.  Constructing with [recursive = true] gives what constructing with
    [recursive = false] gives: the same exception, or the same tree up to
    the flag stored in its Directories, and the same module state.  The
    flag is only stored: neither the scan, whose descent follows the budget
    alone, nor [refresh] reads it. *)
Theorem recursive_flag_never_consulted fs p par hf depth w :
  Directory_init fs p par hf true depth w
  = outcome_with_recursive true (Directory_init fs p par hf false depth w)
  ∧ ∀ fs' d,
      Directory_refresh fs' (with_recursive true d)
      = ((Directory_refresh fs' d).1,
         with_recursive true (Directory_refresh fs' d).2).
Proof.
  split.
  - apply Directory_init_fuel_with_recursive.
  - intros fs' d. apply Directory_refresh_with_recursive.
Qed.

(** C10.  Every node of a constructed tree carries exactly one tag: a
    Directory has [is_dir] and not [is_file], a File has [is_file] and not
    [is_dir].  The tags stay what they are under any sequence of calls of
    [refresh], whatever the filesystem has become, and under reading
    [hash] on any File. *)
Theorem tags_fixed_at_construction (n : node) :
  constructed n →
  node_well_tagged n = true
  ∧ (∀ fss : list filesystem,
       let n' := foldl (λ m fs, (node_refresh fs m).2) n fss in
       map tags (node_nodes n') = map tags (node_nodes n)
       ∧ node_well_tagged n' = true)
  ∧ Forall (λ f, ∀ fs, tags (file_base (File_hash fs f).2) = tags (file_base f))
           (node_files n).
Proof.
  intros Hn.
  assert (node_well_tagged n = true) as Htagged.
  { destruct Hn as [fs p par hf rec depth w d w' Hd|fs p par f Hf]; simpl.
    - by eapply Directory_init_well_tagged.
    - by apply File_init_inv in Hf as (_&_&_& -> & -> &_). }
  split; [done|]. split.
  - intros fss. simpl. clear Hn. revert n Htagged.
    induction fss as [|fs fss IH]; intros n Htagged; simpl; [done|].
    destruct (IH (node_refresh fs n).2) as [Htags Hwt].
    { by rewrite node_refresh_well_tagged. }
    split; [|done]. by rewrite Htags, node_refresh_tags.
  - apply Forall_true. intros f fs. by rewrite File_hash_base.
Qed.

End properties.

(** * Further properties of the code *)

Section further_properties.

Context {blake3 : Blake3}.

(** ** The constructors *)

(** X1.  [Directory(p, ...)] on a path that is not a directory (a regular
    file, a special file, or nothing at all) raises [NotADirectoryError]
    for [p], before anything is listed or counted: the module state is
    untouched. *)
Theorem Directory_init_not_a_directory fs p par hf rec depth w :
  os.path.isdir fs p = false →
  Directory_init fs p par hf rec depth w = (inl (NotADirectoryError p), w).
Proof.
  intros Hnodir. rewrite Directory_init_unfold.
  unfold Pathed_init. by rewrite Hnodir.
Qed.

(** X2.  The validation and the fields of [File(p, parent)].  When
    [os.path.isfile] answers false for [p], a missing path included, the
    constructor raises [FileExistsError] for [p].  An object it returns
    passed that test; it holds the absolute path of [p], the name after
    the last separator of that path, the parent given, the tags of a
    file, [-1] as the time of the last refresh, the two times that
    [os.path.getctime] and [os.path.getmtime] returned for the absolute
    path, and as [filesize] what [os.path.getsize] returned; hashing is
    off and no hash was assigned. *)
Theorem File_init_validates fs p par :
  (os.path.isfile fs p = false → File_init fs p par = inl (FileExistsError p))
  ∧ ∀ f, File_init fs p par = inr f →
      os.path.isfile fs p = true
      ∧ path (file_base f) = os.path.abspath p
      ∧ name (file_base f) = last_component (os.path.abspath p)
      ∧ parent (file_base f) = par
      ∧ is_file (file_base f) = true ∧ is_dir (file_base f) = false
      ∧ last_refreshed (file_base f) = -1
      ∧ should_hash_files (file_base f) = false
      ∧ hash_attr f = None
      ∧ os.path.getctime fs (os.path.abspath p) = inr (created_at (file_base f))
      ∧ os.path.getmtime fs (os.path.abspath p) = inr (last_modified (file_base f))
      ∧ ∃ sz, os.path.getsize fs (os.path.abspath p) = inr sz
              ∧ filesize_attr f = Some sz.
Proof.
  split.
  { intros Hno. unfold File_init, Pathed_init. by rewrite Hno. }
  intros f. unfold File_init, Pathed_init, rbind.
  destruct (os.path.isfile fs p); simpl; [|discriminate].
  destruct (os.path.getctime fs (os.path.abspath p)) as [?|c]; [discriminate|].
  destruct (os.path.getmtime fs (os.path.abspath p)) as [?|m]; [discriminate|].
  rewrite File_calculate_hash_and_size_eq. simpl.
  destruct (os.path.getsize fs (os.path.abspath p)) as [?|sz]; [discriminate|].
  intros [= <-]. simpl. do 11 (split; [reflexivity|]). by exists sz.
Qed.




(** ** The count of files *)

Lemma counted_app n k j :
  counted n (k + j) = counted n k ++ counted (n + Z.of_nat k) j.
Proof.
  revert n. induction k as [|k IH]; intros n; simpl.
  - by rewrite Z.add_0_r.
  - rewrite IH. do 3 f_equal. lia.
Qed.

Lemma counted_on_refl w : counted_on w 0 w.
Proof. split; simpl; [lia|by rewrite app_nil_r]. Qed.

Lemma counted_on_trans w k w1 j w2 :
  counted_on w k w1 → counted_on w1 j w2 → counted_on w (k + j) w2.
Proof.
  intros [Hc1 Ho1] [Hc2 Ho2]. split.
  - rewrite Hc2, Hc1. lia.
  - by rewrite Ho2, Ho1, Hc1, counted_app, app_assoc.
Qed.

Lemma populate_loop_counts fs new_Directory self rec depth :
  (∀ ip w1 t w2,
      new_Directory ip (Some (path self)) (should_hash_files self) rec
                    (depth - 1) w1 = (inr t, w2) →
      counted_on w1 (length (Directory_all_files t)) w2) →
  ∀ items subs fls w subs' fls' w',
    populate_loop fs new_Directory self rec depth items subs fls w
      = (inr (subs', fls'), w') →
    ∃ new_subs new_fls,
      subs' = subs ++ new_subs ∧ fls' = fls ++ new_fls
      ∧ counted_on w (length (concat (map Directory_all_files new_subs))
                      + length new_fls) w'.
Proof.
  intros Hnew. induction items as [|item rest IH]; intros subs fls w subs' fls' w'; simpl.
  { intros [= <- <- <-]. exists [], []. rewrite !app_nil_r.
    split; [done|]. split; [done|]. apply counted_on_refl. }
  destruct (os.path.isdir fs _).
  - case_bool_decide; [|apply IH].
    unfold bind.
    destruct (new_Directory _ _ _ _ _ w) as [[?|d] w1] eqn:Hd; [done|].
    intros (ns & nf & -> & -> & Hcount)%IH.
    exists (d :: ns), nf. rewrite <- app_assoc. split; [done|]. split; [done|].
    simpl. rewrite length_app, <- Nat.add_assoc.
    eapply counted_on_trans; [by eapply Hnew|done].
  - destruct (os.path.isfile fs _); [|done].
    unfold bind, lift, count_file.
    destruct (File_init fs _ _) as [?|f]; [done|].
    intros (ns & nf & -> & -> & Hcount)%IH.
    exists ns, (f :: nf). rewrite <- app_assoc. split; [done|]. split; [done|].
    simpl. rewrite Nat.add_succ_r.
    refine (counted_on_trans w 1 _ _ _ _ Hcount). by split.
Qed.

Lemma Directory_init_fuel_counts fuel :
  ∀ fs p par hf rec depth w d w',
    Directory_init_fuel fuel fs p par hf rec depth w = (inr d, w') →
    counted_on w (length (Directory_all_files d)) w'.
Proof.
  induction fuel as [|fuel IH]; intros fs p par hf rec depth w d w'; [done|].
  rewrite Directory_init_fuel_S.
  destruct (Pathed_init _ _ _ _ _ _ _) as [?|base]; [done|].
  destruct (os.listdir fs (path base)) as [?|items]; [done|].
  destruct (populate_loop _ _ _ _ _ _ _ _ _) as [[?|[subs fls]] w1] eqn:Hloop; [done|].
  intros [= <- <-].
  apply (populate_loop_counts _ _ _ _ _ (λ ip w1 t w2, IH fs ip _ _ _ _ w1 t w2))
    in Hloop as (ns & nf & -> & -> & Hcount).
  simpl. by rewrite length_app.
Qed.

(** X4.  A successful [Directory(...)] raises the module-level
    [file_count] by the number of Files of the tree it returns, whatever
    the count was before (the counter runs on across constructor calls),
    and prints each of the counts in between, in order. *)
Theorem Directory_init_counts_files fs p par hf rec depth w d w' :
  Directory_init fs p par hf rec depth w = (inr d, w') →
  file_count w' = file_count w + Z.of_nat (length (Directory_all_files d))
  ∧ stdout w' = stdout w ++ counted (file_count w) (length (Directory_all_files d)).
Proof. apply Directory_init_fuel_counts. Qed.

Lemma Directory_init_fuel_budgets fuel :
  ∀ fs p par hf rec depth w d w',
    Directory_init_fuel fuel fs p par hf rec depth w = (inr d, w') →
    Directory_budgets rec depth d = true.
Proof.
  induction fuel as [|fuel IH]; intros fs p par hf rec depth w d w'; [done|].
  rewrite Directory_init_fuel_S.
  destruct (Pathed_init _ _ _ _ _ _ _) as [?|base] eqn:Hbase; [done|].
  destruct (os.listdir fs (path base)) as [?|items]; [done|].
  destruct (populate_loop _ _ _ _ _ _ _ _ _) as [[?|[subs fls]] w1] eqn:Hloop; [done|].
  intros [= <- <-]. simpl. rewrite !bool_decide_true by done. simpl.
  eapply (populate_loop_spec _ _ _ _ _
            (λ _ t, Directory_budgets rec (depth - 1) t = true) (λ _ _, True))
    in Hloop as (ns & nf & -> & -> & H2d & _); [|by eauto|done].
  simpl. by eapply Forall2_forallb_r.
Qed.

(** X18.  Every Directory of a constructed tree stores the [recursive]
    flag the root was given, and a budget one lower than that of the
    Directory that lists it, starting from the [recursive_depth] of the
    root. *)
Theorem Directory_init_budgets fs p par hf rec depth w d w' :
  Directory_init fs p par hf rec depth w = (inr d, w') →
  Directory_budgets rec depth d = true.
Proof. apply Directory_init_fuel_budgets. Qed.

(** ** Parents and names *)

Lemma Directory_init_fuel_parents fuel :
  ∀ fs p par hf rec depth w d w',
    Directory_init_fuel fuel fs p par hf rec depth w = (inr d, w') →
    parent (dir_base d) = par ∧ Directory_parents_linked d = true.
Proof.
  induction fuel as [|fuel IH]; intros fs p par hf rec depth w d w'; [done|].
  rewrite Directory_init_fuel_S.
  destruct (Pathed_init _ _ _ _ _ _ _) as [?|base] eqn:Hbase; [done|].
  destruct (os.listdir fs (path base)) as [?|items]; [done|].
  destruct (populate_loop _ _ _ _ _ _ _ _ _) as [[?|[subs fls]] w1] eqn:Hloop; [done|].
  intros [= <- <-]. simpl.
  apply Pathed_init_inv in Hbase as (_ & _ & Hpar & _). split; [done|].
  eapply (populate_loop_spec _ _ _ _ _
            (λ _ t, (bool_decide (parent (dir_base t) = Some (path base))
                     && Directory_parents_linked t) = true)
            (λ _ f, bool_decide (parent (file_base f) = Some (path base)) = true))
    in Hloop as (ns & nf & -> & -> & H2d & H2f & _).
  - simpl. apply andb_true_iff. split; by eapply Forall2_forallb_r.
  - intros ip w2 t w3 Ht. destruct (IH _ _ _ _ _ _ _ _ _ Ht) as [Hp Hl].
    apply andb_true_iff. split; [by apply bool_decide_eq_true|done].
  - intros ip f Hf. apply File_init_inv in Hf as (_ & _ & Hp & _).
    by apply bool_decide_eq_true.
Qed.

(** X5.  In a constructed tree the root holds the parent it was given,
    and every other object, at every depth, holds as its parent the path
    of the Directory that lists it: [has_parent] is true of all of
    them. *)
Theorem Directory_init_parents fs p par hf rec depth w d w' :
  Directory_init fs p par hf rec depth w = (inr d, w') →
  parent (dir_base d) = par
  ∧ Directory_parents_linked d = true
  ∧ Forall (λ c, has_parent (dir_base c) = true) (sub_dirs d)
  ∧ Forall (λ f, has_parent (file_base f) = true) (files d).
Proof.
  intros Hinit. apply Directory_init_fuel_parents in Hinit as [Hpar Hlinked].
  split; [done|]. split; [done|].
  destruct d as [base subs fls e r dp]. simpl in *.
  apply andb_true_iff in Hlinked as [Hs Hf].
  apply forallb_Forall in Hs, Hf. split.
  - eapply Forall_impl; [exact Hs|]. intros c [Hc _]%andb_true_iff.
    apply bool_decide_eq_true in Hc. unfold has_parent. by rewrite Hc.
  - eapply Forall_impl; [exact Hf|]. intros f Hc.
    apply bool_decide_eq_true in Hc. unfold has_parent. by rewrite Hc.
Qed.

Lemma no_sep_append a b : no_sep (a +:+ b) = no_sep a && no_sep b.
Proof.
  induction a as [|c a IH]; [done|].
  rewrite append_cons. simpl. by rewrite IH, andb_assoc.
Qed.

Lemma last_component_acc_spec s :
  ∀ acc, no_sep acc = true →
    no_sep (last_component_acc acc s) = true
    ∧ ∃ pre, acc +:+ s = pre +:+ last_component_acc acc s
             ∧ (pre = "" ∨ os.path.endswith_sep pre = true).
Proof.
  induction s as [|c s IH]; intros acc Hacc; simpl.
  { split; [done|]. exists "". rewrite append_nil_r. auto. }
  case_bool_decide as Hc.
  - destruct (IH "" eq_refl) as (Hr & pre & Heq & Hpre). split; [done|].
    rewrite append_nil_l in Heq.
    exists (acc +:+ "/" +:+ pre). split.
    + subst c. rewrite !append_assoc, <- Heq. done.
    + right. rewrite <- append_assoc. destruct Hpre as [->|Hpre].
      * rewrite append_nil_r. by rewrite endswith_sep_append.
      * rewrite endswith_sep_append; [done|]. by destruct pre.
  - destruct (IH (acc +:+ String c "")) as (Hr & pre & Heq & Hpre).
    { rewrite no_sep_append, Hacc. simpl. by rewrite bool_decide_false. }
    split; [done|]. exists pre. split; [|done].
    by rewrite <- Heq, append_assoc.
Qed.

(** X6.  The name of an object is what follows the last separator of its
    path: it holds no separator, and the path is the name after a prefix
    that is empty or ends with a separator (so a path that ends with a
    separator has the empty name). *)
Theorem Pathed_init_name fs cls p path_method path_error par hf base :
  Pathed_init fs cls p path_method path_error par hf = inr base →
  no_sep (name base) = true
  ∧ ∃ pre, path base = pre +:+ name base
           ∧ (pre = "" ∨ os.path.endswith_sep pre = true).
Proof.
  unfold Pathed_init, os.path.abspath, rbind.
  destruct (path_method fs p); simpl; [|discriminate].
  destruct (os.path.getctime fs p) as [?|c]; [discriminate|].
  destruct (os.path.getmtime fs p) as [?|m]; [discriminate|].
  intros [= <-]. simpl.
  destruct (last_component_acc_spec p "" eq_refl) as (Hno & pre & Heq & Hpre).
  split; [done|]. exists pre. by rewrite append_nil_l in Heq.
Qed.









(** ** [refresh] *)

(** X8.  Right after construction, with the filesystem as the constructor
    saw it, [refresh] returns false and assigns nothing, for a Directory
    tree as for a File. *)
Theorem refresh_after_construction fs :
  (∀ p par hf rec depth w d w',
      Directory_init fs p par hf rec depth w = (inr d, w') →
      Directory_refresh fs d = (inr false, d))
  ∧ (∀ p par f,
       File_init fs p par = inr f → File_refresh fs f = (inr false, f)).
Proof.
  split.
  - intros p par hf rec depth w d w' Hinit.
    by eapply Directory_refresh_in_sync, Directory_init_in_sync.
  - intros p par f Hinit.
    by eapply File_refresh_in_sync, File_init_in_sync.
Qed.

Lemma File_refresh_base fs f :
  file_base (File_refresh fs f).2 = (Pathed_refresh fs (file_base f)).2.
Proof.
  unfold File_refresh, bind at 1, zoom.
  destruct (Pathed_refresh fs (file_base f)) as [[?|b] base']; simpl; [done|].
  unfold bind at 1, get at 1. simpl.
  destruct (should_hash_files base'); [|done].
  unfold bind at 1, getattr at 1. simpl.
  destruct (hash_attr f); [|done].
  unfold bind at 1.
  pose proof (File_calculate_hash_and_size_base fs (set_file_base base' f)) as Hbase.
  destruct (File_calculate_hash_and_size fs _) as [[?|[]] f1]; simpl in *; [done|].
  unfold bind, getattr. destruct (hash_attr f1); simpl; [|done].
  by destruct (negb _).
Qed.

Lemma File_refresh_unhashed fs f :
  should_hash_files (file_base f) = false →
  File_refresh fs f
  = ((Pathed_refresh fs (file_base f)).1,
     set_file_base (Pathed_refresh fs (file_base f)).2 f).
Proof.
  intros Hoff. unfold File_refresh, bind at 1, zoom.
  rewrite Pathed_refresh_eq.
  destruct (os.path.getmtime fs (path (file_base f))); [done|].
  case_bool_decide; unfold bind, get; simpl; by rewrite Hoff.
Qed.

Lemma Pathed_refresh_forget fs b :
  Pathed_forget (Pathed_refresh fs b).2 = Pathed_forget b.
Proof.
  rewrite Pathed_refresh_eq. destruct (os.path.getmtime fs (path b)); [done|].
  by case_bool_decide.
Qed.

Lemma File_refresh_forget fs f :
  File_forget (File_refresh fs f).2 = File_forget f.
Proof.
  unfold File_forget. by rewrite File_refresh_base, Pathed_refresh_forget.
Qed.

(** X9.  [refresh] and reading [hash] assign nothing but the
    modification times and, on Files, the cached size and hash: with
    these blanked, the tree after a call is the tree before it, also when
    the call raises.  Paths, names, parents, creation times,
    [last_refreshed], the hashing flags, [empty], the budgets and the
    lists of children are never touched. *)
Theorem refresh_assigns_only_times_and_caches fs :
  (∀ d, Directory_forget (Directory_refresh fs d).2 = Directory_forget d)
  ∧ (∀ f, File_forget (File_refresh fs f).2 = File_forget f)
  ∧ (∀ f, File_forget (File_hash fs f).2 = File_forget f).
Proof.
  split; [|split].
  - intros d. induction d as [base subs fls e r dp IH] using Directory_tree_ind.
    simpl.
    pose proof (Pathed_refresh_forget fs base) as Hbase.
    destruct (Pathed_refresh fs base) as [[?|b] base']; simpl in Hbase.
    { simpl. by rewrite Hbase. }
    pose proof (refresh_each_map Directory_forget (Directory_refresh fs) b subs IH)
      as Hsubs.
    destruct (refresh_each (Directory_refresh fs) b subs) as [[?|b'] subs'];
      simpl in Hsubs.
    { simpl. by rewrite Hbase, Hsubs. }
    pose proof (refresh_each_map File_forget (File_refresh fs) b' fls) as Hfls.
    destruct (refresh_each (File_refresh fs) b' fls) as [res fls']. simpl in Hfls.
    simpl. rewrite Hbase, Hsubs, Hfls; [done|].
    apply Forall_true. intros f. apply File_refresh_forget.
  - apply File_refresh_forget.
  - intros f. unfold File_forget. by rewrite File_hash_base.
Qed.

Lemma refresh_each_ext {A} (refresh1 refresh2 : ST A bool) refreshed (l : list A) :
  Forall (λ x, refresh1 x = refresh2 x) l →
  refresh_each refresh1 refreshed l = refresh_each refresh2 refreshed l.
Proof.
  intros Hl. revert refreshed.
  induction Hl as [|x l Hx _ IH]; intros refreshed; simpl; [done|].
  destruct refreshed; [by rewrite IH|].
  rewrite Hx. destruct (refresh2 x) as [[?|b] x']; [done|]. by rewrite IH.
Qed.

Lemma Forall_concat_map {A B} (P : B → Prop) (f : A → list B) (l : list A) :
  Forall P (concat (map f l)) ↔ Forall (λ x, Forall P (f x)) l.
Proof.
  induction l as [|x l IH]; simpl.
  - split; constructor.
  - by rewrite Forall_app, Forall_cons, IH.
Qed.

Lemma Pathed_refresh_same_mtime fs fs' b :
  os.path.getmtime fs' (path b) = os.path.getmtime fs (path b) →
  Pathed_refresh fs' b = Pathed_refresh fs b.
Proof. intros Heq. by rewrite !Pathed_refresh_eq, Heq. Qed.

(** X10.  On a tree that does not hash, [refresh] reads nothing but the
    modification times at the paths of the tree: two filesystems that
    agree on these give the same result and the same tree.  Entries
    created or removed, listings and contents are not looked at. *)
Theorem refresh_reads_only_modification_times fs fs' d :
  Directory_hashing_off d = true →
  Forall (λ q, os.path.getmtime fs' q = os.path.getmtime fs q)
         (Directory_paths d) →
  Directory_refresh fs' d = Directory_refresh fs d.
Proof.
  induction d as [base subs fls e r dp IH] using Directory_tree_ind.
  rewrite Directory_paths_eq. simpl.
  rewrite !andb_true_iff. intros [[_ Hsubs] Hfls].
  rewrite Forall_cons, Forall_app, Forall_concat_map.
  intros (Hbase & Hpsubs & Hpfls).
  apply forallb_Forall in Hsubs, Hfls.
  rewrite (Pathed_refresh_same_mtime fs fs' base Hbase).
  destruct (Pathed_refresh fs base) as [[?|b] base']; [done|].
  rewrite (refresh_each_ext (Directory_refresh fs') (Directory_refresh fs)).
  2:{ eapply Forall_impl;
        [apply Forall_and; split; [exact IH|apply Forall_and; split;
                                            [exact Hsubs|exact Hpsubs]]|].
      simpl. intros c (IHc & Hc & Hpc). by apply IHc. }
  destruct (refresh_each (Directory_refresh fs) b subs) as [[?|b'] subs']; [done|].
  rewrite (refresh_each_ext (File_refresh fs') (File_refresh fs)); [done|].
  clear -Hfls Hpfls. induction Hfls as [|f fls Hf _ IHf]; [constructor|].
  simpl in Hpfls. apply Forall_cons in Hpfls as [Hpf Hpfls].
  constructor; [|by apply IHf].
  apply andb_true_iff in Hf as [Hoff%negb_true_iff _].
  by rewrite !File_refresh_unhashed, (Pathed_refresh_same_mtime fs fs').
Qed.

(** A call of [Pathed.refresh] that does not return true has assigned
    nothing; what it raises is what [os.path.getmtime] raised. *)
Lemma Pathed_refresh_quiet fs b r b' :
  Pathed_refresh fs b = (r, b') → r ≠ inr true →
  b' = b ∧ ∀ e, r = inl e → os.path.getmtime fs (path b) = inl e.
Proof.
  rewrite Pathed_refresh_eq.
  destruct (os.path.getmtime fs (path b)) as [e0|m].
  - intros [= <- <-] _. split; [done|]. by intros e [= <-].
  - case_bool_decide; intros [= <- <-]; done.
Qed.

Lemma File_refresh_quiet fs f r f' :
  should_hash_files (file_base f) = false →
  File_refresh fs f = (r, f') → r ≠ inr true →
  f' = f ∧ ∀ e, r = inl e → os.path.getmtime fs (path (file_base f)) = inl e.
Proof.
  intros Hoff. rewrite File_refresh_unhashed by done.
  destruct (Pathed_refresh fs (file_base f)) as [r0 b'] eqn:Hb. simpl.
  intros [= <- <-] Hr. destruct (Pathed_refresh_quiet _ _ _ _ Hb Hr) as [-> He].
  split; [by destruct f|done].
Qed.

Lemma refresh_each_quiet {A} (refresh : ST A bool) (E : A → exception → Prop)
    refreshed (l : list A) r l' :
  Forall (λ x, ∀ rx x', refresh x = (rx, x') → rx ≠ inr true →
               x' = x ∧ ∀ e, rx = inl e → E x e) l →
  refresh_each refresh refreshed l = (r, l') → r ≠ inr true →
  l' = l ∧ ∀ e, r = inl e → ∃ x, x ∈ l ∧ E x e.
Proof.
  intros Hl. revert refreshed r l'.
  induction Hl as [|x l Hx _ IH]; intros refreshed r l'; simpl.
  { intros [= <- <-] _. split; [done|]. by intros e [=]. }
  destruct refreshed.
  { rewrite refresh_each_true. by intros [= <- <-]. }
  destruct (refresh x) as [[e0|rx] x'] eqn:Hrx.
  - intros [= <- <-] Hr. destruct (Hx _ _ eq_refl Hr) as [-> He].
    split; [done|]. intros e [= <-]. exists x. split; [by left|by apply He].
  - destruct (refresh_each refresh rx l) as [r0 l0] eqn:Hrest.
    intros [= <- <-] Hr. destruct rx.
    { rewrite refresh_each_true in Hrest. by injection Hrest as <- <-. }
    destruct (Hx _ _ eq_refl ltac:(done)) as [-> _].
    destruct (IH _ _ _ Hrest Hr) as [-> He]. split; [done|].
    intros e Hre. destruct (He e Hre) as (y & Hy & HE).
    exists y. split; [by right|done].
Qed.

Lemma elem_of_concat_map_2 {A B} (f : A → list B) (l : list A) x y :
  x ∈ l → y ∈ f x → y ∈ concat (map f l).
Proof.
  intros Hx Hy. induction Hx as [x l|x x0 l _ IH]; simpl; apply elem_of_app; auto.
Qed.

Lemma Directory_refresh_no_change fs d :
  Directory_hashing_off d = true →
  ∀ r d', Directory_refresh fs d = (r, d') → r ≠ inr true →
    d' = d ∧ ∀ e, r = inl e →
              ∃ q, q ∈ Directory_paths d ∧ os.path.getmtime fs q = inl e.
Proof.
  induction d as [base subs fls e0 r0 dp IH] using Directory_tree_ind.
  rewrite Directory_paths_eq. simpl.
  rewrite !andb_true_iff. intros [[_ Hsubs] Hfls] r d'.
  apply forallb_Forall in Hsubs, Hfls.
  destruct (Pathed_refresh fs base) as [[e1|b] base'] eqn:Hbase.
  { intros [= <- <-] Hr. destruct (Pathed_refresh_quiet _ _ _ _ Hbase Hr) as [-> He].
    split; [done|]. intros e [= <-]. exists (path base).
    split; [by left|by apply He]. }
  destruct (refresh_each (Directory_refresh fs) b subs) as [[e1|b'] subs'] eqn:Hrs.
  - intros [= <- <-] Hr. destruct b.
    { by rewrite refresh_each_true in Hrs. }
    destruct (Pathed_refresh_quiet _ _ _ _ Hbase ltac:(done)) as [-> _].
    eapply (refresh_each_quiet _
              (λ c e, ∃ q, q ∈ Directory_paths c ∧ os.path.getmtime fs q = inl e))
      in Hrs as [-> He]; [| |done].
    + split; [done|]. intros e [= <-].
      destruct (He _ eq_refl) as (c & Hc & q & Hq & ?).
      exists q. split; [|done]. right. apply elem_of_app. left.
      by eapply elem_of_concat_map_2.
    + eapply Forall_impl; [apply Forall_and; split; [exact IH|exact Hsubs]|].
      simpl. intros c [IHc Hc] rx x'. by apply IHc.
  - destruct (refresh_each (File_refresh fs) b' fls) as [r1 fls'] eqn:Hrf.
    intros [= <- <-] Hr. destruct b'.
    { rewrite refresh_each_true in Hrf. by injection Hrf as <- <-. }
    destruct b.
    { rewrite refresh_each_true in Hrs. by injection Hrs as ? ?. }
    destruct (Pathed_refresh_quiet _ _ _ _ Hbase ltac:(done)) as [-> _].
    eapply (refresh_each_quiet _
              (λ c e, ∃ q, q ∈ Directory_paths c ∧ os.path.getmtime fs q = inl e))
      in Hrs as [-> _]; [| |done].
    2:{ eapply Forall_impl; [apply Forall_and; split; [exact IH|exact Hsubs]|].
        simpl. intros c [IHc Hc] rx x'. by apply IHc. }
    eapply (refresh_each_quiet _
              (λ f e, os.path.getmtime fs (path (file_base f)) = inl e))
      in Hrf as [-> He]; [| |done].
    + split; [done|]. intros e Hre.
      destruct (He _ Hre) as (f & Hf & Hnone).
      exists (path (file_base f)). split; [|done].
      right. apply elem_of_app. right.
      apply list_elem_of_In, in_map_iff. exists f.
      split; [done|by apply list_elem_of_In].
    + eapply Forall_impl; [exact Hfls|]. simpl. intros f Hf rx x'.
      apply File_refresh_quiet.
      by apply andb_true_iff in Hf as [->%negb_true_iff _].
Qed.

(** X11.  On a tree that does not hash, a call of [refresh] that raises
    or returns false has assigned nothing: the tree is as it was.  What it
    raises is what [os.path.getmtime] raised at a path of the tree. *)
Theorem Directory_refresh_quiet fs d r d' :
  Directory_hashing_off d = true →
  Directory_refresh fs d = (r, d') → r ≠ inr true →
  d' = d
  ∧ ∀ e, r = inl e →
      ∃ q, q ∈ Directory_paths d ∧ os.path.getmtime fs q = inl e.
Proof. intros Hoff. by apply Directory_refresh_no_change. Qed.

Lemma refresh_each_changed {A} (refresh : ST A bool) (l l' : list A) :
  Forall (λ x, ∀ x', refresh x = (inr false, x') → x' = x) l →
  refresh_each refresh false l = (inr true, l') →
  ∃ l1 x x' l2,
    l = l1 ++ x :: l2 ∧ l' = l1 ++ x' :: l2
    ∧ Forall (λ y, refresh y = (inr false, y)) l1
    ∧ refresh x = (inr true, x').
Proof.
  intros Hl. revert l'. induction Hl as [|x l Hx _ IH]; intros l'; simpl; [done|].
  destruct (refresh x) as [[?|rx] x'] eqn:Hrx; [done|].
  destruct (refresh_each refresh rx l) as [r0 l0] eqn:Hrest.
  intros [= -> <-]. destruct rx.
  - rewrite refresh_each_true in Hrest. injection Hrest as <-.
    exists [], x, x', l. repeat split; [constructor|done].
  - rewrite (Hx _ eq_refl) in *.
    destruct (IH _ Hrest) as (l1 & y & y' & l2 & -> & -> & Hl1 & Hy).
    exists (x :: l1), y, y', l2. repeat split; [|done]. by constructor.
Qed.

Lemma Directory_in_sync_nodes fs d :
  Directory_in_sync fs d = true →
  Forall (λ b, Pathed_in_sync fs b = true) (Directory_nodes d).
Proof.
  induction d as [base subs fls e r dp IH] using Directory_tree_ind. simpl.
  rewrite !andb_true_iff. intros [[Hb Hsubs] Hfls].
  apply forallb_Forall in Hsubs, Hfls.
  constructor; [done|]. apply Forall_app. split.
  - apply Forall_concat_map.
    eapply Forall_impl; [apply Forall_and; split; [exact IH|exact Hsubs]|].
    simpl. intros c [IHc Hc]. auto.
  - apply Forall_map. eapply Forall_impl; [exact Hfls|].
    intros f Hf. unfold File_in_sync in Hf. by apply andb_true_iff in Hf as [? _].
Qed.

Lemma Directory_refresh_false_in_sync fs d d' :
  Directory_hashing_off d = true →
  Directory_refresh fs d = (inr false, d') → Directory_in_sync fs d = true.
Proof.
  intros Hoff Hr. apply (Directory_refresh_result _ _ _ _ Hoff) in Hr.
  by destruct (Directory_in_sync fs d).
Qed.

Lemma Directory_refresh_first_stale fs d :
  Directory_hashing_off d = true →
  ∀ d', Directory_refresh fs d = (inr true, d') →
    ∃ l1 b l2 m,
      Directory_nodes d = l1 ++ b :: l2
      ∧ Directory_nodes d' = l1 ++ set_last_modified m b :: l2
      ∧ Forall (λ x, Pathed_in_sync fs x = true) l1
      ∧ os.path.getmtime fs (path b) = inr m ∧ last_modified b ≠ m.
Proof.
  induction d as [base subs fls e0 r0 dp IH] using Directory_tree_ind.
  intros Hoff d'. pose proof Hoff as Hoff'. simpl in Hoff.
  apply andb_true_iff in Hoff as [[_ Hsubs]%andb_true_iff Hfls].
  apply forallb_Forall in Hsubs, Hfls.
  assert (Hbase_stale : ∀ b', Pathed_refresh fs base = (inr true, b') →
            ∃ m, b' = set_last_modified m base
                 ∧ os.path.getmtime fs (path base) = inr m
                 ∧ last_modified base ≠ m).
  { intros b'. rewrite Pathed_refresh_eq.
    destruct (os.path.getmtime fs (path base)) as [?|m]; [done|].
    case_bool_decide; [done|]. intros [= <-]. by exists m. }
  simpl.
  destruct (Pathed_refresh fs base) as [[?|b] base'] eqn:Hbase; [done|].
  destruct b.
  { (* the directory itself is out of date *)
    rewrite !refresh_each_true. intros [= <-].
    destruct (Hbase_stale _ eq_refl) as (m & -> & Hm & Hne).
    exists [], base, (concat (map Directory_nodes subs) ++ map file_base fls), m.
    repeat split; [constructor|done..]. }
  destruct (Pathed_refresh_quiet _ _ _ _ Hbase ltac:(done)) as [-> _].
  assert (Pathed_in_sync fs base = true) as Hbsync.
  { apply Pathed_refresh_result in Hbase. by destruct (Pathed_in_sync fs base). }
  assert (Forall (λ c, ∀ c', Directory_refresh fs c = (inr false, c') → c' = c) subs)
    as Hsubs_quiet.
  { eapply Forall_impl; [exact Hsubs|]. intros c Hc c' Hr.
    by destruct (Directory_refresh_no_change fs c Hc _ _ Hr). }
  assert (Forall (λ f, ∀ f', File_refresh fs f = (inr false, f') → f' = f) fls)
    as Hfls_quiet.
  { eapply Forall_impl; [exact Hfls|]. intros f Hf f' Hr.
    apply andb_true_iff in Hf as [Hf%negb_true_iff _].
    by destruct (File_refresh_quiet fs f _ _ Hf Hr). }
  destruct (refresh_each (Directory_refresh fs) false subs) as [[?|b'] subs'] eqn:Hrs;
    [done|].
  destruct b'.
  - (* a sub-directory reports the change *)
    rewrite refresh_each_true. intros [= <-].
    destruct (refresh_each_changed _ _ _ Hsubs_quiet Hrs)
      as (s1 & c & c' & s2 & -> & -> & Hs1 & Hc).
    apply Forall_app in IH as [_ IH]. apply Forall_cons in IH as [IHc _].
    apply Forall_app in Hsubs as [Hoff1 Hsubs].
    apply Forall_cons in Hsubs as [Hoffc _].
    destruct (IHc Hoffc _ Hc) as (n1 & b & n2 & m & Hn & Hn' & Hsync & Hm & Hne).
    exists (base :: concat (map Directory_nodes s1) ++ n1), b,
           (n2 ++ concat (map Directory_nodes s2) ++ map file_base fls), m.
    simpl. rewrite !concat_map_split, Hn, Hn'.
    repeat split; [by rewrite <- !app_assoc..| |done|done].
    constructor; [done|]. apply Forall_app. split; [|done].
    apply Forall_concat_map.
    eapply Forall_impl; [apply Forall_and; split; [exact Hs1|exact Hoff1]|].
    simpl. intros y [Hy Hoffy].
    by eapply Directory_in_sync_nodes, Directory_refresh_false_in_sync.
  - (* a file reports the change *)
    assert (subs' = subs ∧ Forall (λ c, Directory_in_sync fs c = true) subs)
      as [-> Hsubs_sync].
    { clear -Hrs Hsubs Hsubs_quiet. revert subs' Hrs.
      induction Hsubs as [|c subs Hc _ IHs]; intros subs'; simpl.
      { intros [= <-]. by split. }
      apply Forall_cons in Hsubs_quiet as [Hq Hsubs_quiet].
      destruct (Directory_refresh fs c) as [[?|rc] c'] eqn:Hrc; [done|].
      destruct (refresh_each _ rc subs) as [r0 l0] eqn:Hrest.
      intros [= -> <-]. destruct rc.
      { by rewrite refresh_each_true in Hrest. }
      rewrite (Hq _ eq_refl) in *.
      destruct (IHs Hsubs_quiet _ Hrest) as [-> ?].
      split; [done|]. constructor; [|done].
      by eapply Directory_refresh_false_in_sync. }
    destruct (refresh_each (File_refresh fs) false fls) as [r1 fls'] eqn:Hrf.
    intros [= -> <-].
    destruct (refresh_each_changed _ _ _ Hfls_quiet Hrf)
      as (f1 & f & f' & f2 & -> & -> & Hf1 & Hf).
    apply Forall_app in Hfls as [Hoff1 Hfls].
    apply Forall_cons in Hfls as [Hofff _].
    apply andb_true_iff in Hofff as [Hofff%negb_true_iff _].
    rewrite File_refresh_unhashed in Hf by done.
    destruct (Pathed_refresh fs (file_base f)) as [rf bf] eqn:Hbf.
    simpl in Hf. injection Hf as -> <-.
    revert Hbf. rewrite Pathed_refresh_eq.
    destruct (os.path.getmtime fs (path (file_base f))) as [?|m] eqn:Hm; [done|].
    case_bool_decide as Hne; [done|]. intros [= <-].
    exists (base :: concat (map Directory_nodes subs) ++ map file_base f1),
           (file_base f), (map file_base f2), m.
    simpl. rewrite !map_app. simpl.
    repeat split; [by rewrite <- !app_assoc..| |done|done].
    constructor; [done|]. apply Forall_app. split.
    + apply Forall_concat_map. eapply Forall_impl; [exact Hsubs_sync|].
      intros c. apply Directory_in_sync_nodes.
    + apply Forall_map.
      eapply Forall_impl; [apply Forall_and; split; [exact Hf1|exact Hoff1]|].
      simpl. intros y [Hy Hoffy].
      apply andb_true_iff in Hoffy as [Hoffy%negb_true_iff _].
      apply (File_refresh_result _ _ _ _ Hoffy) in Hy.
      unfold File_in_sync in Hy. rewrite Hoffy, andb_true_r in Hy.
      by destruct (Pathed_in_sync fs (file_base y)).
Qed.

(** X12.  On a tree that does not hash, a call of [refresh] that returns
    true has brought exactly one object up to date: the first one, in
    the order parent, sub-directories, files, whose stored modification
    time is not the one on disk.  Every object before it mirrors the disk;
    the objects after it are not looked at and keep what they had. *)
Theorem Directory_refresh_updates_first_stale fs d d' :
  Directory_hashing_off d = true →
  Directory_refresh fs d = (inr true, d') →
  ∃ l1 b l2 m,
    Directory_nodes d = l1 ++ b :: l2
    ∧ Directory_nodes d' = l1 ++ set_last_modified m b :: l2
    ∧ Forall (λ x, Pathed_in_sync fs x = true) l1
    ∧ os.path.getmtime fs (path b) = inr m ∧ last_modified b ≠ m.
Proof. intros Hoff. by apply Directory_refresh_first_stale. Qed.

(** ** Files that hash, files that do not *)

Lemma File_hash_file_contents fs f c m contents :
  fs !! path (file_base f) = Some (IFile c m contents) →
  File_hash_file fs f = inr (hash_of_contents contents)
  ∧ os.path.getsize fs (path (file_base f)) = inr (Z.of_nat (length contents))
  ∧ os.path.getmtime fs (path (file_base f)) = inr m.
Proof.
  intros Hlook.
  unfold File_hash_file, os.read, os.path.getsize, os.path.getmtime, rbind.
  by rewrite Hlook.
Qed.

Lemma File_refresh_hashing fs f h c m contents :
  should_hash_files (file_base f) = true → hash_attr f = Some h →
  fs !! path (file_base f) = Some (IFile c m contents) →
  File_refresh fs f
  = (inr (negb (bool_decide (last_modified (file_base f) = m))
          || negb (bool_decide (h = hash_of_contents contents))),
     {| file_base := set_last_modified m (file_base f);
        filesize_attr := Some (Z.of_nat (length contents));
        hash_attr := Some (hash_of_contents contents) |}).
Proof.
  intros Hon Hh Hlook.
  destruct (File_hash_file_contents fs f c m contents Hlook) as (Hfile & Hsize & Hm).
  destruct f as [b sz oh]. simpl in *. subst oh.
  unfold File_refresh, bind at 1, zoom. simpl.
  rewrite Pathed_refresh_eq, Hm.
  assert (∀ b', path b' = path b → should_hash_files b' = true →
            File_calculate_hash_and_size fs
              {| file_base := b'; filesize_attr := sz; hash_attr := Some h |}
            = (inr tt, {| file_base := b';
                          filesize_attr := Some (Z.of_nat (length contents));
                          hash_attr := Some (hash_of_contents contents) |})) as Hcalc.
  { intros b' Hp Hon'. rewrite File_calculate_hash_and_size_eq. simpl.
    rewrite Hon'. unfold File_hash_file in *. simpl in *.
    by rewrite Hp, Hfile, Hsize. }
  case_bool_decide as Hsame; unfold set_file_base; simpl;
    unfold bind at 1, get at 1; simpl; rewrite Hon;
    unfold bind at 1, getattr at 1; simpl; unfold bind at 1;
    rewrite Hcalc by done; unfold bind, getattr, ret; simpl.
  - assert (set_last_modified m b = b) as ->
      by (destruct b; simpl in *; by subst m).
    by destruct (negb _).
  - by destruct (negb _).
Qed.

(** X13.  For a File that hashes, holds a hash and is readable,
    [refresh] returns true exactly when the modification time on disk
    differs from the stored one or the hash of the contents differs from
    the cached one: either signal alone is enough.  It records the time,
    the size and the hash it saw, so that the next call, with the disk
    unchanged, returns false. *)
Theorem File_refresh_either_signal fs f h c m contents :
  should_hash_files (file_base f) = true → hash_attr f = Some h →
  fs !! path (file_base f) = Some (IFile c m contents) →
  ∃ f',
    File_refresh fs f
    = (inr (negb (bool_decide (last_modified (file_base f) = m))
            || negb (bool_decide (h = hash_of_contents contents))), f')
    ∧ last_modified (file_base f') = m
    ∧ filesize_attr f' = Some (Z.of_nat (length contents))
    ∧ hash_attr f' = Some (hash_of_contents contents)
    ∧ File_refresh fs f' = (inr false, f').
Proof.
  intros Hon Hh Hlook. eexists. split; [by eapply File_refresh_hashing|].
  repeat split.
  erewrite File_refresh_hashing; [|done..]. simpl.
  by rewrite !bool_decide_true.
Qed.

(** X14.  For a File that hashes, reading [hash] reads the file again:
    it returns the hash of the contents now on disk, not the cached one,
    and caches it with the size.  A change of contents that kept the
    modification time is thereby taken in without being reported: the
    [refresh] that follows returns false. *)
Theorem File_hash_rereads_when_hashing fs f c m contents :
  should_hash_files (file_base f) = true →
  fs !! path (file_base f) = Some (IFile c m contents) →
  ∃ f',
    File_hash fs f = (inr (hash_of_contents contents), f')
    ∧ filesize_attr f' = Some (Z.of_nat (length contents))
    ∧ hash_attr f' = Some (hash_of_contents contents)
    ∧ (last_modified (file_base f) = m →
       (File_refresh fs f').1 = inr false).
Proof.
  intros Hon Hlook.
  destruct (File_hash_file_contents fs f c m contents Hlook) as (Hfile & Hsize & Hm).
  unfold File_hash, bind. rewrite File_calculate_hash_and_size_eq. simpl.
  rewrite Hon, Hfile, Hsize. unfold getattr. simpl.
  eexists. split; [done|]. repeat split.
  intros Hsame. erewrite File_refresh_hashing; [|done..]. simpl.
  by rewrite !bool_decide_true.
Qed.

(** X15.  For a File that does not hash, [refresh] leaves the size and
    the hash attribute as they are, whatever happened to the file: the
    size is the one of the last construction or of the last read of
    [hash].  Reading [hash], while it raises for want of a hash, brings
    the size up to date. *)
Theorem File_filesize_follows_hash_reads fs f :
  should_hash_files (file_base f) = false →
  filesize_attr (File_refresh fs f).2 = filesize_attr f
  ∧ hash_attr (File_refresh fs f).2 = hash_attr f
  ∧ ∀ sz, os.path.getsize fs (path (file_base f)) = inr sz →
          filesize_attr (File_hash fs f).2 = Some sz
          ∧ (File_filesize (File_hash fs f).2).1 = inr sz.
Proof.
  intros Hoff. rewrite File_refresh_unhashed by done. simpl.
  split; [done|]. split; [done|]. intros sz Hsz.
  unfold File_hash, bind. rewrite File_calculate_hash_and_size_eq. simpl.
  rewrite Hoff, Hsz. unfold getattr, File_filesize. simpl.
  by destruct (hash_attr f).
Qed.

End further_properties.

(** * The code at concrete inputs *)

#[local] Existing Instance hex_blake3.

(** C1.  [Directory("/r", hash_files=True)] on [fs0]: the flag stops at
    the call.  No object of the tree has [hash_files] set and no File
    holds a hash; the tree is the one that [hash_files=False] builds. *)
Theorem hash_files_not_propagated :
  Directory_init fs0 "/r" None true false 0 w0 = (inr tree0, World 3 [1; 2; 3])
  ∧ Directory_init fs0 "/r" None false false 0 w0 = (inr tree0, World 3 [1; 2; 3])
  ∧ map should_hash_files (Directory_nodes tree0)
    = [false; false; false; false; false]
  ∧ map (λ f, (path (file_base f), hash_attr f)) (Directory_all_files tree0)
    = [("/r/sub/c.txt", None); ("/r/a.txt", None); ("/r/b.txt", None)].
Proof. repeat split; vm_compute; reflexivity. Qed.

(** C2.  [a.txt] and [b.txt] both change after [tree0] was built.  The
    first [refresh] returns true on [a.txt] and never calls [refresh] on
    [b.txt], which keeps the modification time 30 while the disk has 31.
    So the second call, with nothing edited in between, returns true
    again; only the third returns false. *)
Theorem refresh_skips_after_first_change :
  ∃ d1 d2,
    Directory_refresh fs0_ab_touched tree0 = (inr true, d1)
    ∧ map (λ f, (path (file_base f), last_modified (file_base f))) (files d1)
      = [("/r/a.txt", 21); ("/r/b.txt", 30)]
    ∧ os.path.getmtime fs0_ab_touched "/r/b.txt" = inr 31
    ∧ Directory_refresh fs0_ab_touched d1 = (inr true, d2)
    ∧ Directory_refresh fs0_ab_touched d2 = (inr false, d2).
Proof. eexists _, _. repeat split; vm_compute; reflexivity. Qed.

(** C3.  One edit, an atomic save of [a.txt], after [tree0] was built in
    step with [fs0]: it moves the modification time of [/r] from 10 to 11
    and that of [a.txt] from 20 to 21, and nothing else.  The first
    [refresh] returns true on [/r] itself and calls [refresh] on no
    child, so [a.txt] keeps the modification time 20.  The second call,
    with no further edit, returns true again; only the third returns
    false.  The one edit is reported twice. *)
Theorem refresh_reports_one_edit_twice :
  Directory_in_sync fs0 tree0 = true
  ∧ (∀ q, q ∈ Directory_paths tree0 → q ≠ "/r" → q ≠ "/r/a.txt" →
          fs0_a_saved !! q = fs0 !! q)
  ∧ os.path.getmtime fs0 "/r" = inr 10
  ∧ os.path.getmtime fs0_a_saved "/r" = inr 11
  ∧ os.path.getmtime fs0 "/r/a.txt" = inr 20
  ∧ os.path.getmtime fs0_a_saved "/r/a.txt" = inr 21
  ∧ ∃ d1 d2,
      Directory_refresh fs0_a_saved tree0 = (inr true, d1)
      ∧ last_modified (dir_base d1) = 11
      ∧ map (λ f, (path (file_base f), last_modified (file_base f))) (files d1)
        = [("/r/a.txt", 20); ("/r/b.txt", 30)]
      ∧ Directory_refresh fs0_a_saved d1 = (inr true, d2)
      ∧ Directory_refresh fs0_a_saved d2 = (inr false, d2).
Proof.
  split; [vm_compute; reflexivity|]. split.
  { intros q _ Hr Ha. unfold fs0_a_saved.
    rewrite lookup_insert_ne by done. by rewrite lookup_insert_ne. }
  do 4 (split; [vm_compute; reflexivity|]).
  eexists _, _. repeat split; vm_compute; reflexivity.
Qed.

(** C4.  A File never hashes, and reading [hash] on it raises: after
    [a.txt] was overwritten out of band, both of two consecutive reads
    raise [AttributeError], having brought [filesize] up to date. *)
Theorem hash_accessor_raises_when_not_hashing :
  File_init fs0 "/r/a.txt" (Some "/r") = inr file_a
  ∧ should_hash_files (file_base file_a) = false
  ∧ ∃ f1,
      File_hash fs0_a_edited file_a = (inl (AttributeError "_File__hash"), f1)
      ∧ File_hash fs0_a_edited f1 = (inl (AttributeError "_File__hash"), f1)
      ∧ filesize_attr file_a = Some 2 ∧ filesize_attr f1 = Some 3.
Proof.
  split; [vm_compute; reflexivity|]. split; [reflexivity|].
  eexists. repeat split; vm_compute; reflexivity.
Qed.

(** C5.  [Directory("/r")] with the budget 0 on [fs0]: [/r/sub] is
    constructed with the budget -1 and does not descend into its
    directory [deep], whose file is never counted. *)
Theorem depth_zero_stops_after_one_level :
  ∃ sub,
    Directory_init fs0 "/r" None false false 0 w0 = (inr tree0, World 3 [1; 2; 3])
    ∧ sub_dirs tree0 = [sub]
    ∧ path (dir_base sub) = "/r/sub" ∧ recursive_depth sub = -1
    ∧ os.listdir fs0 "/r/sub" = inr ["c.txt"; "deep"]
    ∧ os.path.isdir fs0 "/r/sub/deep" = true
    ∧ sub_dirs sub = []
    ∧ Directory_paths tree0 = ["/r"; "/r/sub"; "/r/sub/c.txt"; "/r/a.txt"; "/r/b.txt"].
Proof. eexists. repeat split; vm_compute; reflexivity. Qed.


(** ** The theorems at concrete inputs *)

(** X19 on [tree0]: nothing changed, and then [a.txt] overwritten in
    place. *)
Lemma refresh_reports_a_change_once_witness :
  node_in_sync fs0 (DirectoryNode tree0) = true
  ∧ NoDup (node_paths (DirectoryNode tree0))
  ∧ "/r/a.txt" ∈ node_paths (DirectoryNode tree0)
  ∧ fs0 !! "/r/a.txt" = Some (IFile 2 20 [x68; x69]%byte)
  ∧ same_kind (IFile 2 20 [x68; x69]%byte) (IFile 2 21 [x68; x65; x79]%byte) = true
  ∧ inode_mtime (IFile 2 20 [x68; x69]%byte)
    ≠ inode_mtime (IFile 2 21 [x68; x65; x79]%byte)
  ∧ (∃ n1 n2, node_refresh fs0 (DirectoryNode tree0) = (inr false, n1)
              ∧ node_refresh fs0 n1 = (inr false, n2))
  ∧ (∃ n1 n2, node_refresh fs0_a_edited (DirectoryNode tree0) = (inr true, n1)
              ∧ node_refresh fs0_a_edited n1 = (inr false, n2)).
Proof.
  assert (node_in_sync fs0 (DirectoryNode tree0) = true) as Hsync
    by (vm_compute; reflexivity).
  assert (NoDup (node_paths (DirectoryNode tree0))) as Hnd
    by (apply (bool_decide_unpack _); vm_compute; exact I).
  assert ("/r/a.txt" ∈ node_paths (DirectoryNode tree0)) as Hin
    by (apply (bool_decide_unpack _); vm_compute; exact I).
  assert (fs0 !! "/r/a.txt" = Some (IFile 2 20 [x68; x69]%byte)) as Hbefore
    by (vm_compute; reflexivity).
  assert (inode_mtime (IFile 2 20 [x68; x69]%byte)
          ≠ inode_mtime (IFile 2 21 [x68; x65; x79]%byte)) as Hmtime
    by (simpl; lia).
  destruct (refresh_reports_a_change_once fs0 (DirectoryNode tree0) Hsync)
    as [Hsame Hedit].
  do 6 (split; [assumption || reflexivity|]). split; [exact Hsame|].
  exact (Hedit "/r/a.txt" _ (IFile 2 21 [x68; x65; x79]%byte)
               Hnd Hin Hbefore eq_refl Hmtime).
Defined.


(** C7 on [a.txt], which holds the two bytes of "hi". *)
Lemma hash_file_digest_or_empty_witness :
  os.read fs0 (path (file_base file_a)) = inr [x68; x69]%byte
  ∧ File_hash_file fs0 file_a = inr (HexDigest (blake3_hexdigest [x68; x69]%byte)).
Proof.
  assert (os.read fs0 (path (file_base file_a)) = inr [x68; x69]%byte) as Hread
    by (vm_compute; reflexivity).
  split; [assumption|].
  apply (proj1 (hash_file_digest_or_empty fs0 file_a _ Hread)). discriminate.
Defined.

(** C8 on [fs_sock]: the scan stops at the socket, after one file. *)
Lemma unknown_entry_aborts_scan_witness :
  os.listdir fs_sock "/r" = inr (["a.txt"] ++ "sock" :: ["b.txt"])
  ∧ os.path.isdir fs_sock (os.path.join "/r" "sock") = false
  ∧ os.path.isfile fs_sock (os.path.join "/r" "sock") = false
  ∧ ∃ base,
      Pathed_init fs_sock ClsDirectory "/r" os.path.isdir NotADirectoryError
                  None false = inr base
      ∧ match Directory_populate fs_sock base false 0 ["a.txt"] w0 with
        | (inl e, w1) =>
            Directory_init fs_sock "/r" None false false 0 w0 = (inl e, w1)
        | (inr _, w1) =>
            Directory_init fs_sock "/r" None false false 0 w0
            = (inl (EnvironmentError
                      ("Unknown Directory Element: " +:+ os.path.join "/r" "sock")),
               w1)
        end.
Proof.
  assert (os.listdir fs_sock "/r" = inr (["a.txt"] ++ "sock" :: ["b.txt"])) as Hitems
    by (vm_compute; reflexivity).
  assert (os.path.isdir fs_sock (os.path.join "/r" "sock") = false) as Hnodir
    by (vm_compute; reflexivity).
  assert (os.path.isfile fs_sock (os.path.join "/r" "sock") = false) as Hnofile
    by (vm_compute; reflexivity).
  do 3 (split; [assumption|]).
  exact (unknown_entry_aborts_scan fs_sock "/r" None false false 0 w0
           ["a.txt"] "sock" ["b.txt"] Hitems Hnodir Hnofile).
Defined.

(** C10 on [tree0]. *)
Lemma tags_fixed_at_construction_witness :
  constructed (DirectoryNode tree0)
  ∧ node_well_tagged (DirectoryNode tree0) = true
  ∧ map tags (node_nodes (node_refresh fs0_ab_touched (DirectoryNode tree0)).2)
    = map tags (node_nodes (DirectoryNode tree0)).
Proof.
  assert (constructed (DirectoryNode tree0)) as Hn.
  { apply (constructed_Directory fs0 "/r" None false false 0 w0 tree0
             (World 3 [1; 2; 3])). vm_compute. reflexivity. }
  destruct (tags_fixed_at_construction _ Hn) as (Htagged & Hrefresh & _).
  split; [exact Hn|]. split; [exact Htagged|].
  exact (proj1 (Hrefresh [fs0_ab_touched])).
Defined.

(** ** The further properties at concrete inputs *)

(** X1 on a regular file. *)
Lemma Directory_init_not_a_directory_witness :
  os.path.isdir fs0 "/r/a.txt" = false
  ∧ Directory_init fs0 "/r/a.txt" None false false 0 w0
    = (inl (NotADirectoryError "/r/a.txt"), w0).
Proof.
  assert (os.path.isdir fs0 "/r/a.txt" = false) as Hnodir by (vm_compute; reflexivity).
  split; [assumption|].
  exact (Directory_init_not_a_directory fs0 "/r/a.txt" None false false 0 w0 Hnodir).
Defined.

(** X2 on [fs0]: the directory [/r/sub], and the file [a.txt]. *)
Lemma File_init_validates_witness :
  os.path.isfile fs0 "/r/sub" = false
  ∧ File_init fs0 "/r/sub" (Some "/r") = inl (FileExistsError "/r/sub")
  ∧ File_init fs0 "/r/a.txt" (Some "/r") = inr file_a
  ∧ path (file_base file_a) = os.path.abspath "/r/a.txt"
  ∧ name (file_base file_a) = "a.txt"
  ∧ os.path.getsize fs0 "/r/a.txt" = inr 2
  ∧ filesize_attr file_a = Some 2
  ∧ hash_attr file_a = None.
Proof.
  assert (os.path.isfile fs0 "/r/sub" = false) as Hno by (vm_compute; reflexivity).
  assert (File_init fs0 "/r/a.txt" (Some "/r") = inr file_a) as Hinit
    by (vm_compute; reflexivity).
  split; [assumption|].
  split; [exact (proj1 (File_init_validates fs0 "/r/sub" (Some "/r")) Hno)|].
  split; [assumption|].
  destruct (proj2 (File_init_validates fs0 "/r/a.txt" (Some "/r")) file_a Hinit)
    as (_ & Hpath & _ & _ & _ & _ & _ & _ & Hhash & _).
  split; [exact Hpath|]. split; [reflexivity|].
  split; [vm_compute; reflexivity|]. split; [reflexivity|]. exact Hhash.
Defined.


(** X4 on [fs0], with ten files counted before. *)
Lemma Directory_init_counts_files_witness :
  Directory_init fs0 "/r" None false false 0 (World 10 [])
  = (inr tree0, World 13 [11; 12; 13])
  ∧ file_count (World 13 [11; 12; 13])
    = file_count (World 10 []) + Z.of_nat (length (Directory_all_files tree0))
  ∧ stdout (World 13 [11; 12; 13])
    = stdout (World 10 [])
      ++ counted (file_count (World 10 [])) (length (Directory_all_files tree0)).
Proof.
  assert (Directory_init fs0 "/r" None false false 0 (World 10 [])
          = (inr tree0, World 13 [11; 12; 13])) as Hinit by (vm_compute; reflexivity).
  split; [assumption|].
  exact (Directory_init_counts_files _ _ _ _ _ _ _ _ _ Hinit).
Defined.

(** X5 on [tree0]. *)
Lemma Directory_init_parents_witness :
  Directory_init fs0 "/r" None false false 0 w0 = (inr tree0, World 3 [1; 2; 3])
  ∧ parent (dir_base tree0) = None
  ∧ Directory_parents_linked tree0 = true
  ∧ Forall (λ c, has_parent (dir_base c) = true) (sub_dirs tree0)
  ∧ Forall (λ f, has_parent (file_base f) = true) (files tree0).
Proof.
  assert (Directory_init fs0 "/r" None false false 0 w0
          = (inr tree0, World 3 [1; 2; 3])) as Hinit by (vm_compute; reflexivity).
  split; [assumption|].
  exact (Directory_init_parents _ _ _ _ _ _ _ _ _ Hinit).
Defined.

(** X6 on [/r/sub]. *)
Lemma Pathed_init_name_witness :
  Pathed_init fs0 ClsDirectory "/r/sub" os.path.isdir NotADirectoryError
              (Some "/r") false
  = inr (dir_base (default no_Directory (sub_dirs tree0 !! 0%nat)))
  ∧ no_sep (name (dir_base (default no_Directory (sub_dirs tree0 !! 0%nat)))) = true
  ∧ ∃ pre,
      path (dir_base (default no_Directory (sub_dirs tree0 !! 0%nat)))
      = pre +:+ name (dir_base (default no_Directory (sub_dirs tree0 !! 0%nat)))
      ∧ (pre = "" ∨ os.path.endswith_sep pre = true).
Proof.
  assert (Pathed_init fs0 ClsDirectory "/r/sub" os.path.isdir NotADirectoryError
                      (Some "/r") false
          = inr (dir_base (default no_Directory (sub_dirs tree0 !! 0%nat)))) as Hinit
    by (vm_compute; reflexivity).
  split; [assumption|].
  exact (Pathed_init_name _ _ _ _ _ _ _ _ Hinit).
Defined.


(** X8 on [tree0] and [file_a]. *)
Lemma refresh_after_construction_witness :
  Directory_init fs0 "/r" None false false 0 w0 = (inr tree0, World 3 [1; 2; 3])
  ∧ File_init fs0 "/r/a.txt" (Some "/r") = inr file_a
  ∧ Directory_refresh fs0 tree0 = (inr false, tree0)
  ∧ File_refresh fs0 file_a = (inr false, file_a).
Proof.
  assert (Directory_init fs0 "/r" None false false 0 w0
          = (inr tree0, World 3 [1; 2; 3])) as Hinit by (vm_compute; reflexivity).
  assert (File_init fs0 "/r/a.txt" (Some "/r") = inr file_a) as Hfile
    by (vm_compute; reflexivity).
  do 2 (split; [assumption|]).
  destruct (refresh_after_construction fs0) as [Hdir Hf].
  split; [exact (Hdir _ _ _ _ _ _ _ _ Hinit)|exact (Hf _ _ _ Hfile)].
Defined.

(** X10 on [tree0]: [new.txt] was created in [/r]. *)
Lemma refresh_reads_only_modification_times_witness :
  Directory_hashing_off tree0 = true
  ∧ Forall (λ q, os.path.getmtime fs0_added q = os.path.getmtime fs0 q)
           (Directory_paths tree0)
  ∧ Directory_refresh fs0_added tree0 = Directory_refresh fs0 tree0.
Proof.
  assert (Directory_hashing_off tree0 = true) as Hoff by (vm_compute; reflexivity).
  assert (Forall (λ q, os.path.getmtime fs0_added q = os.path.getmtime fs0 q)
                 (Directory_paths tree0)) as Hsame.
  { assert (Directory_paths tree0
            = ["/r"; "/r/sub"; "/r/sub/c.txt"; "/r/a.txt"; "/r/b.txt"]) as ->
      by (vm_compute; reflexivity).
    repeat (constructor; [vm_compute; reflexivity|]). constructor. }
  do 2 (split; [assumption|]).
  exact (refresh_reads_only_modification_times fs0 fs0_added tree0 Hoff Hsame).
Defined.

(** X11 on [tree0]: [b.txt] was removed. *)
Lemma Directory_refresh_quiet_witness :
  Directory_hashing_off tree0 = true
  ∧ Directory_refresh fs0_b_removed tree0
    = (inl (FileNotFoundError "/r/b.txt"), tree0)
  ∧ inl (FileNotFoundError "/r/b.txt") ≠ (inr true : result bool)
  ∧ tree0 = tree0
  ∧ ∀ e, (inl (FileNotFoundError "/r/b.txt") : result bool) = inl e →
      ∃ q, q ∈ Directory_paths tree0 ∧ os.path.getmtime fs0_b_removed q = inl e.
Proof.
  assert (Directory_hashing_off tree0 = true) as Hoff by (vm_compute; reflexivity).
  assert (Directory_refresh fs0_b_removed tree0
          = (inl (FileNotFoundError "/r/b.txt"), tree0)) as Hr
    by (vm_compute; reflexivity).
  assert (inl (FileNotFoundError "/r/b.txt") ≠ (inr true : result bool)) as Hne
    by discriminate.
  do 3 (split; [assumption|]).
  exact (Directory_refresh_quiet fs0_b_removed tree0 _ _ Hoff Hr Hne).
Defined.

(** X12 on [tree0]: [a.txt] and [b.txt] were touched. *)
Lemma Directory_refresh_updates_first_stale_witness :
  Directory_hashing_off tree0 = true
  ∧ ∃ d', Directory_refresh fs0_ab_touched tree0 = (inr true, d')
      ∧ ∃ l1 b l2 m,
          Directory_nodes tree0 = l1 ++ b :: l2
          ∧ Directory_nodes d' = l1 ++ set_last_modified m b :: l2
          ∧ Forall (λ x, Pathed_in_sync fs0_ab_touched x = true) l1
          ∧ os.path.getmtime fs0_ab_touched (path b) = inr m
          ∧ last_modified b ≠ m.
Proof.
  assert (Directory_hashing_off tree0 = true) as Hoff by (vm_compute; reflexivity).
  split; [assumption|].
  destruct (Directory_refresh fs0_ab_touched tree0) as [r d'] eqn:Hr.
  assert (r = inr true) as -> by (vm_compute in Hr; congruence).
  exists d'. split; [reflexivity|].
  exact (Directory_refresh_updates_first_stale fs0_ab_touched tree0 d' Hoff Hr).
Defined.

(** X13 on a hashing File for [a.txt]: the contents changed, the
    modification time did not. *)
Lemma File_refresh_either_signal_witness :
  should_hash_files (file_base file_a_hashing) = true
  ∧ hash_attr file_a_hashing = Some (HexDigest "6869")
  ∧ fs0_a_rewritten !! path (file_base file_a_hashing)
    = Some (IFile 2 20 [x68; x6f]%byte)
  ∧ ∃ f',
      File_refresh fs0_a_rewritten file_a_hashing
      = (inr (negb (bool_decide (last_modified (file_base file_a_hashing) = 20))
              || negb (bool_decide (HexDigest "6869"
                                    = hash_of_contents [x68; x6f]%byte))), f')
      ∧ last_modified (file_base f') = 20
      ∧ filesize_attr f' = Some (Z.of_nat (length [x68; x6f]%byte))
      ∧ hash_attr f' = Some (hash_of_contents [x68; x6f]%byte)
      ∧ File_refresh fs0_a_rewritten f' = (inr false, f').
Proof.
  assert (fs0_a_rewritten !! path (file_base file_a_hashing)
          = Some (IFile 2 20 [x68; x6f]%byte)) as Hlook by (vm_compute; reflexivity).
  split; [reflexivity|]. split; [reflexivity|]. split; [assumption|].
  exact (File_refresh_either_signal fs0_a_rewritten file_a_hashing _ _ _ _
           eq_refl eq_refl Hlook).
Defined.

(** X14 on the same File. *)
Lemma File_hash_rereads_when_hashing_witness :
  should_hash_files (file_base file_a_hashing) = true
  ∧ fs0_a_rewritten !! path (file_base file_a_hashing)
    = Some (IFile 2 20 [x68; x6f]%byte)
  ∧ ∃ f',
      File_hash fs0_a_rewritten file_a_hashing
      = (inr (hash_of_contents [x68; x6f]%byte), f')
      ∧ filesize_attr f' = Some (Z.of_nat (length [x68; x6f]%byte))
      ∧ hash_attr f' = Some (hash_of_contents [x68; x6f]%byte)
      ∧ (last_modified (file_base file_a_hashing) = 20 →
         (File_refresh fs0_a_rewritten f').1 = inr false).
Proof.
  assert (fs0_a_rewritten !! path (file_base file_a_hashing)
          = Some (IFile 2 20 [x68; x6f]%byte)) as Hlook by (vm_compute; reflexivity).
  split; [reflexivity|]. split; [assumption|].
  exact (File_hash_rereads_when_hashing fs0_a_rewritten file_a_hashing _ _ _
           eq_refl Hlook).
Defined.

(** X15 on [file_a], after [a.txt] grew to three bytes. *)
Lemma File_filesize_follows_hash_reads_witness :
  should_hash_files (file_base file_a) = false
  ∧ os.path.getsize fs0_a_edited (path (file_base file_a)) = inr 3
  ∧ filesize_attr (File_refresh fs0_a_edited file_a).2 = filesize_attr file_a
  ∧ filesize_attr (File_hash fs0_a_edited file_a).2 = Some 3.
Proof.
  assert (os.path.getsize fs0_a_edited (path (file_base file_a)) = inr 3) as Hsz
    by (vm_compute; reflexivity).
  split; [reflexivity|]. split; [assumption|].
  destruct (File_filesize_follows_hash_reads fs0_a_edited file_a eq_refl)
    as (Hkeep & _ & Hread).
  split; [exact Hkeep|exact (proj1 (Hread 3 Hsz))].
Defined.


(** X17 on [tree0], built with the budget 0. *)
Lemma Directory_init_height_witness :
  Directory_init fs0 "/r" None false false 0 w0 = (inr tree0, World 3 [1; 2; 3])
  ∧ (Directory_height tree0 ≤ Z.to_nat (0 + 1))%nat.
Proof.
  assert (Directory_init fs0 "/r" None false false 0 w0
          = (inr tree0, World 3 [1; 2; 3])) as Hinit by (vm_compute; reflexivity).
  split; [assumption|].
  exact (Directory_init_height _ _ _ _ _ _ _ _ _ Hinit).
Defined.

(** X18 on [tree0]. *)
Lemma Directory_init_budgets_witness :
  Directory_init fs0 "/r" None false false 0 w0 = (inr tree0, World 3 [1; 2; 3])
  ∧ Directory_budgets false 0 tree0 = true.
Proof.
  assert (Directory_init fs0 "/r" None false false 0 w0
          = (inr tree0, World 3 [1; 2; 3])) as Hinit by (vm_compute; reflexivity).
  split; [assumption|].
  exact (Directory_init_budgets _ _ _ _ _ _ _ _ _ Hinit).
Defined.
